(** * ezform: the form core of react-toolkit (Form, Field, FieldArray)

    A shallow embedding of the field registry, the validation pass, the
    submit flow, the per-field binding and the array-group handlers, followed
    by the properties of the written specification that were checked on it.

    Conventions of the embedding.
    - A JavaScript value is a [jsval].  Numbers are integers ([Z]); there is
      no NaN, no fraction and no function value.
    - A JavaScript object used as a dictionary is an [Obj.t]: an association
      list in insertion order, which is the order of [Object.entries] for
      names that are not canonical array indices.  Names inherited from
      [Object.prototype] (such as constructor) are outside the model.
    - A [FormFieldType] object is a record of eight optional attributes:
      [None] is an absent key, [Some VUndefined] a key holding undefined.
    - [cloneDeep] is the identity: values are immutable here.
    - React state is split into the snapshot a callback closed over at
      render time and the pending state its setters write to. *)

From Stdlib Require Import List String Ascii ZArith Lia Bool Arith.
From Stdlib Require Import Decimal DecimalNat DecimalString FinFun.
Import ListNotations.
Local Open Scope string_scope.
Set Warnings "-register-all".

(** ** JavaScript values *)

Inductive jsval : Type :=
| VUndefined
| VNull
| VBool (b : bool)
| VNum (z : Z)
| VStr (s : string)
| VArr (items : list jsval)
| VObj (props : list (string * jsval)).

(** [!!v] *)
Definition truthy (v : jsval) : bool :=
  match v with
  | VUndefined | VNull => false
  | VBool b => b
  | VNum z => negb (Z.eqb z 0)
  | VStr s => negb (String.eqb s "")
  | VArr _ | VObj _ => true
  end.

(** [a && b], [a || b] and [a ?? b] return one of their operands. *)
Definition js_and (a b : jsval) : jsval := if truthy a then b else a.
Definition js_or (a b : jsval) : jsval := if truthy a then a else b.
Definition js_nullish (a b : jsval) : jsval :=
  match a with
  | VUndefined | VNull => b
  | _ => a
  end.

(** Reading a key that may be absent yields undefined. *)
Definition orUndefined (o : option jsval) : jsval :=
  match o with
  | Some v => v
  | None => VUndefined
  end.

(** ** Strings: [includes('.')], [split('.')], [startsWith], [Number], template
    printing of an index *)

Definition dot : ascii := "."%char.

Fixpoint includes_dot (s : string) : bool :=
  match s with
  | EmptyString => false
  | String c s' => if Ascii.eqb c dot then true else includes_dot s'
  end.

Fixpoint split_dot (s : string) : list string :=
  match s with
  | EmptyString => [EmptyString]
  | String c s' =>
      if Ascii.eqb c dot then EmptyString :: split_dot s'
      else match split_dot s' with
           | seg :: rest => String c seg :: rest
           | [] => [String c EmptyString]
           end
  end.

Definition startsWith (s p : string) : bool := String.prefix p s.

(** [Number(seg)] on a segment of a field name.  The model reads unsigned
    decimal numerals, and the empty segment as 0 like JavaScript does; every
    other segment is NaN ([None]).  Signed, hexadecimal, exponent and
    blank-padded numerals are outside the model. *)
Definition Number (seg : string) : option nat :=
  option_map Nat.of_uint (NilEmpty.uint_of_string seg).

(** [`${i}`] for an integer [i]. *)
Definition showNat (n : nat) : string := NilEmpty.string_of_uint (Nat.to_uint n).

Definition showInt (z : Z) : string :=
  match z with
  | Zneg p => String "-"%char (showNat (Pos.to_nat p))
  | _ => showNat (Z.to_nat z)
  end.

(** [`${name}.${i}`] *)
Definition itemKey (name : string) (i : Z) : string :=
  name ++ String dot (showInt i).

(** The two names bound by [const [a, b] = k.split('.')]. *)
Definition firstSegment (k : string) : string := nth 0 (split_dot k) EmptyString.
Definition secondSegment (k : string) : string := nth 1 (split_dot k) EmptyString.

(** ** Objects as insertion-ordered dictionaries *)

Module Obj.

Definition t (V : Type) : Type := list (string * V).

Section Ops.
Context {V : Type}.

Definition empty : t V := [].

(** [o[k]] *)
Fixpoint get (k : string) (o : t V) : option V :=
  match o with
  | [] => None
  | (k', v) :: o' => if String.eqb k k' then Some v else get k o'
  end.

(** [o[k] = v]: an existing key keeps its place, a new key goes last. *)
Fixpoint set (k : string) (v : V) (o : t V) : t V :=
  match o with
  | [] => [(k, v)]
  | (k', v') :: o' =>
      if String.eqb k k' then (k, v) :: o' else (k', v') :: set k v o'
  end.

(** [delete o[k]] *)
Fixpoint remove (k : string) (o : t V) : t V :=
  match o with
  | [] => []
  | (k', v') :: o' =>
      if String.eqb k k' then remove k o' else (k', v') :: remove k o'
  end.

Definition keys (o : t V) : list string := map fst o.
Definition entries (o : t V) : list (string * V) := o.

(** [{...a, ...b}] *)
Definition spread (a b : t V) : t V :=
  fold_left (fun acc kv => set (fst kv) (snd kv) acc) (entries b) a.

(** [Object.entries(o).reduce((acc, [k, v]) => { acc[k] = f(k, v); return acc }, {})] *)
Definition rebuildStep (f : string -> V -> V) (acc : t V) (kv : string * V) : t V :=
  set (fst kv) (f (fst kv) (snd kv)) acc.

Definition rebuild (f : string -> V -> V) (o : t V) : t V :=
  fold_left (rebuildStep f) (entries o) empty.
End Ops.

End Obj.

(** ** FieldRecord *)

Record FormFieldType : Type := mkField {
  required : option jsval;
  touched : option jsval;
  originalValue : option jsval;
  value : option jsval;
  error : option jsval;
  errorMessage : option jsval;
  _registered : option jsval;
  _item : option jsval
}.

(** The empty object literal. *)
Definition emptyField : FormFieldType :=
  mkField None None None None None None None None.

Definition override (a b : option jsval) : option jsval :=
  match b with
  | Some _ => b
  | None => a
  end.

(** [{...a, ...b}] on field objects: every key of [b] wins, also one that
    holds undefined. *)
Definition mergeField (a b : FormFieldType) : FormFieldType :=
  {| required := override (required a) (required b);
     touched := override (touched a) (touched b);
     originalValue := override (originalValue a) (originalValue b);
     value := override (value a) (value b);
     error := override (error a) (error b);
     errorMessage := override (errorMessage a) (errorMessage b);
     _registered := override (_registered a) (_registered b);
     _item := override (_item a) (_item b) |}.

(** [_prev[name] || {}] : a stored field object is always truthy. *)
Definition orEmpty (o : option FormFieldType) : FormFieldType :=
  match o with
  | Some f => f
  | None => emptyField
  end.

Definition set_registered (b : bool) : FormFieldType :=
  mkField None None None None None None (Some (VBool b)) None.

(** ** FieldRegistry: the updaters handed to [setFields] *)

Section Registry.
Variable initialValues : Obj.t jsval.
Variable initialTouched : jsval.

(** The defaults of a fresh record, then the caller's [field], then the
    two flags that the caller cannot override. *)
Definition freshField (initialValue valueDefault originalDefault : jsval)
    (field : FormFieldType) (item : bool) : FormFieldType :=
  mergeField
    (mergeField
       {| required := Some (VBool false);
          touched := Some (js_or (js_or (VBool (truthy initialValue)) initialTouched)
                                 (VBool false));
          value := Some valueDefault;
          originalValue := Some originalDefault;
          error := Some (VBool false);
          errorMessage := Some VNull;
          _registered := None;
          _item := None |}
       field)
    {| required := None; touched := None; originalValue := None; value := None;
       error := None; errorMessage := None;
       _registered := Some (VBool true);
       _item := Some (VBool item) |}.

(** The initial value of a non-array field: [initialValues[name]], or the
    element of the group's initial array when the name is [group.index]. *)
Definition resolveInitial (name : string) : jsval :=
  let initialValue := orUndefined (Obj.get name initialValues) in
  if includes_dot name then
    match Number (secondSegment name),
          orUndefined (Obj.get (firstSegment name) initialValues) with
    | Some itemIndex, VArr items => nth itemIndex items VUndefined
    | _, _ => initialValue
    end
  else initialValue.

Definition arrayFieldsToMerge (name : string) (field : FormFieldType)
    : Obj.t FormFieldType :=
  match orUndefined (Obj.get name initialValues) with
  | VArr items =>
      fold_left
        (fun acc ix =>
           Obj.set (itemKey name (Z.of_nat (fst ix)))
                   (freshField (snd ix) (snd ix) (snd ix) field true) acc)
        (combine (seq 0 (List.length items)) items) Obj.empty
  | _ => Obj.empty
  end.

Definition registerField (name : string) (field : FormFieldType) (isArray : bool)
    (_prev : Obj.t FormFieldType) : Obj.t FormFieldType :=
  let fieldsToMerge :=
    if isArray then arrayFieldsToMerge name field
    else
      let initialValue := resolveInitial name in
      Obj.set name
        (freshField initialValue
           (js_nullish initialValue VUndefined)
           (js_nullish (orUndefined (value field)) VUndefined)
           field (includes_dot name))
        Obj.empty in
  Obj.spread _prev fieldsToMerge.
End Registry.

Definition reregisterField (name : string) (_prev : Obj.t FormFieldType)
    : Obj.t FormFieldType :=
  Obj.set name (mergeField (orEmpty (Obj.get name _prev)) (set_registered true)) _prev.

Definition unregisterField (name : string) (_prev : Obj.t FormFieldType)
    : Obj.t FormFieldType :=
  Obj.set name (mergeField (orEmpty (Obj.get name _prev)) (set_registered false)) _prev.

(** [if (updatedPrev[name]) delete updatedPrev[name]] : the guard holds for
    every stored field object. *)
Definition deleteField (name : string) (_prev : Obj.t FormFieldType)
    : Obj.t FormFieldType :=
  match Obj.get name _prev with
  | Some _ => Obj.remove name _prev
  | None => _prev
  end.

(** [fields[name]?._registered === true] *)
Definition isFieldRegistered (fields : Obj.t FormFieldType) (name : string) : bool :=
  match Obj.get name fields with
  | Some f => match _registered f with
              | Some (VBool true) => true
              | _ => false
              end
  | None => false
  end.

Definition updateField (name : string) (field : FormFieldType)
    (_prev : Obj.t FormFieldType) : Obj.t FormFieldType :=
  Obj.set name (mergeField (orEmpty (Obj.get name _prev)) field) _prev.

Definition touchRecord (v : FormFieldType) : FormFieldType :=
  mergeField v (mkField None (Some (VBool true)) None None None None None None).

Definition touchForm (_prev : Obj.t FormFieldType) : Obj.t FormFieldType :=
  Obj.rebuild (fun _ v => touchRecord v) _prev.

Definition resetRecord (v : FormFieldType) : FormFieldType :=
  mergeField v
    {| required := None;
       touched := Some (VBool (truthy (orUndefined (originalValue v))));
       originalValue := None;
       value := Some (js_nullish (orUndefined (originalValue v)) VUndefined);
       error := Some (VBool false);
       errorMessage := Some VNull;
       _registered := None;
       _item := None |}.

Definition resetForm (_prev : Obj.t FormFieldType) : Obj.t FormFieldType :=
  Obj.rebuild (fun _ v => resetRecord v) _prev.

Definition clearRecord (v : FormFieldType) : FormFieldType :=
  mergeField v
    {| required := None;
       touched := Some (VBool false);
       originalValue := None;
       value := Some VUndefined;
       error := Some (VBool false);
       errorMessage := Some VNull;
       _registered := None;
       _item := None |}.

Definition clearForm (_prev : Obj.t FormFieldType) : Obj.t FormFieldType :=
  Obj.rebuild (fun _ v => clearRecord v) _prev.

(** ** Completions and the effects of a callback *)

Inductive JsError : Type :=
| TypeError (msg : string)
| Thrown (reason : jsval).

(** A call either returns or throws; for an awaited promise, it either
    fulfils or rejects. *)
Inductive Completion (A : Type) : Type :=
| Normal (a : A)
| Throw (e : JsError).
Arguments Normal {A} a.
Arguments Throw {A} e.

(** The argument of the submit and change callbacks, which is also what
    [validateForm] returns.  [errors = None] is undefined. *)
Record FormCallbackArgs : Type := mkArgs {
  valid : bool;
  errors : option (Obj.t jsval);
  fields : Obj.t jsval
}.

(** The three [useState] cells of [Form]. *)
Record FormState : Type := mkState {
  st_fields : Obj.t FormFieldType;
  st_unregisteredErrors : Obj.t string;
  st_submitting : bool
}.

(** What a callback can change: the state React will commit at the next
    render, the console, and the log of submit-handler invocations. *)
Record Effects : Type := mkEffects {
  pending : FormState;
  console : list string;
  handlerCalls : list FormCallbackArgs
}.

Definition M (A : Type) : Type := Effects -> Completion A * Effects.

Definition ret {A : Type} (a : A) : M A := fun w => (Normal a, w).

Definition bind {A B : Type} (c : M A) (k : A -> M B) : M B :=
  fun w =>
    match c w with
    | (Normal a, w') => k a w'
    | (Throw e, w') => (Throw e, w')
    end.

Definition throw {A : Type} (e : JsError) : M A := fun w => (Throw e, w).

Definition lift {A : Type} (c : Completion A) : M A := fun w => (c, w).

Declare Scope js_scope.
Delimit Scope js_scope with js.
Notation "x <- c ;; k" := (bind c (fun x => k))
  (at level 61, c at next level, right associativity) : js_scope.
Notation "c ;;; k" := (bind c (fun _ => k))
  (at level 61, right associativity) : js_scope.
Local Open Scope js_scope.

Definition setFields (f : Obj.t FormFieldType -> Obj.t FormFieldType) : M unit :=
  fun w =>
    (Normal tt,
     mkEffects (mkState (f (st_fields (pending w)))
                        (st_unregisteredErrors (pending w))
                        (st_submitting (pending w)))
               (console w) (handlerCalls w)).

Definition setUnregisteredErrors (e : Obj.t string) : M unit :=
  fun w =>
    (Normal tt,
     mkEffects (mkState (st_fields (pending w)) e (st_submitting (pending w)))
               (console w) (handlerCalls w)).

Definition setSubmitting (b : bool) : M unit :=
  fun w =>
    (Normal tt,
     mkEffects (mkState (st_fields (pending w)) (st_unregisteredErrors (pending w)) b)
               (console w) (handlerCalls w)).

(** [console.warn(msg)] *)
Definition warn (msg : string) : M unit :=
  fun w => (Normal tt, mkEffects (pending w) (console w ++ [msg]) (handlerCalls w)).

(** ** ValidationEngine *)

Inductive PathSegment : Type :=
| PKey (s : string)
| PIndex (n : nat).

Record ZodIssue : Type := mkIssue {
  path : list PathSegment;
  message : string
}.

Inductive SafeParseResult : Type :=
| ParseSuccess
| ParseFailure (issues : list ZodIssue).

(** The validator: [schema.partial().merge(schema.required(keys)).safeParse(tree)]
    as one function of the required keys and the value tree. *)
Definition ZodSchema : Type := Obj.t jsval -> Obj.t jsval -> SafeParseResult.

Definition showSegment (p : PathSegment) : string :=
  match p with
  | PKey s => s
  | PIndex n => showNat n
  end.

(** [path.join('.')] *)
Fixpoint joinPath (p : list PathSegment) : string :=
  match p with
  | [] => EmptyString
  | [x] => showSegment x
  | x :: rest => showSegment x ++ String dot (joinPath rest)
  end.

(** [arr[i] = v]: a write past the end leaves holes, which read as undefined. *)
Fixpoint arraySet (items : list jsval) (i : nat) (v : jsval) : list jsval :=
  match i, items with
  | O, [] => [v]
  | O, _ :: rest => v :: rest
  | S i', [] => VUndefined :: arraySet [] i' v
  | S i', x :: rest => x :: arraySet rest i' v
  end.

(** [if (!acc[listName]) acc[listName] = []; acc[listName][itemIndex] = v].
    The module is strict code, so creating a property on a primitive that
    a scalar field of the same name left there is a TypeError. *)
Definition assignItem (acc : Obj.t jsval) (listName : string) (itemIndex : nat)
    (v : jsval) : Completion (Obj.t jsval) :=
  let acc1 :=
    if truthy (orUndefined (Obj.get listName acc)) then acc
    else Obj.set listName (VArr []) acc in
  match orUndefined (Obj.get listName acc1) with
  | VArr items => Normal (Obj.set listName (VArr (arraySet items itemIndex v)) acc1)
  | VObj props => Normal (Obj.set listName (VObj (Obj.set (showNat itemIndex) v props)) acc1)
  | _ => Throw (TypeError "Cannot create property on a primitive value")
  end.

(** [!isNaN(Number(s)) ? Number(s) : 0] *)
Definition indexOrZero (seg : string) : nat :=
  match Number seg with
  | Some n => n
  | None => 0
  end.

(** One step of a flattening [reduce]: place the value of field [k]. *)
Definition placeValue (acc : Obj.t jsval) (k : string) (v : FormFieldType)
    : Completion (Obj.t jsval) :=
  if includes_dot k then
    assignItem acc (firstSegment k) (indexOrZero (secondSegment k)) (orUndefined (value v))
  else Normal (Obj.set k (orUndefined (value v)) acc).

(** The first [reduce] of [validateForm]: the value tree of the registered
    fields, and beside it the registered names that are required. *)
Fixpoint flattenRegistered (entries : list (string * FormFieldType))
    (acc allRequiredFields : Obj.t jsval) : Completion (Obj.t jsval * Obj.t jsval) :=
  match entries with
  | [] => Normal (acc, allRequiredFields)
  | (k, v) :: rest =>
      if truthy (orUndefined (_registered v)) then
        let allRequiredFields' :=
          if truthy (orUndefined (required v))
          then Obj.set k (VBool true) allRequiredFields
          else allRequiredFields in
        match placeValue acc k v with
        | Normal acc' => flattenRegistered rest acc' allRequiredFields'
        | Throw e => Throw e
        end
      else flattenRegistered rest acc allRequiredFields
  end.

(** The last [reduce] of [validateForm]: the value tree of every stored field. *)
Fixpoint flattenAll (entries : list (string * FormFieldType)) (acc : Obj.t jsval)
    : Completion (Obj.t jsval) :=
  match entries with
  | [] => Normal acc
  | (k, v) :: rest =>
      match placeValue acc k v with
      | Normal acc' => flattenAll rest acc'
      | Throw e => Throw e
      end
  end.

(** [erroredFieldKeys[path.join('.')] = message] for every issue in turn. *)
Definition collectIssues (r : SafeParseResult) : Obj.t string :=
  match r with
  | ParseSuccess => Obj.empty
  | ParseFailure issues =>
      fold_left (fun acc issue => Obj.set (joinPath (path issue)) (message issue) acc)
                issues Obj.empty
  end.

(** [erroredFieldKeys[k] ? ... : ...] : an absent key and an empty message
    both take the second branch. *)
Definition erroredMessage (erroredFieldKeys : Obj.t string) (k : string) : option string :=
  match Obj.get k erroredFieldKeys with
  | Some msg => if String.eqb msg EmptyString then None else Some msg
  | None => None
  end.

Definition touchPart (touch : bool) : FormFieldType :=
  if touch then mkField None (Some (VBool true)) None None None None None None
  else emptyField.

Definition validatedRecord (erroredFieldKeys : Obj.t string) (touch : bool)
    (k : string) (v : FormFieldType) : FormFieldType :=
  match erroredMessage erroredFieldKeys k with
  | Some msg =>
      mergeField
        (mergeField v (mkField None None None None (Some (VBool true)) (Some (VStr msg))
                               None None))
        (touchPart touch)
  | None =>
      mergeField
        (mergeField v (mkField None None None None (Some (VBool false)) (Some VNull)
                               None None))
        (touchPart touch)
  end.

(** [allHandledErrorKeys.includes(k)] *)
Definition includes (keys : list string) (k : string) : bool :=
  existsb (String.eqb k) keys.

Definition unregisteredOf (erroredFieldKeys : Obj.t string)
    (allHandledErrorKeys : list string) : Obj.t string :=
  fold_left
    (fun acc kv => if includes allHandledErrorKeys (fst kv) then acc
                   else Obj.set (fst kv) (snd kv) acc)
    (Obj.entries erroredFieldKeys) Obj.empty.

(** An object is truthy, the empty one too. *)
Definition objectTruthy {V : Type} (o : Obj.t V) : bool := true.

Definition messages (o : Obj.t string) : Obj.t jsval :=
  map (fun kv => (fst kv, VStr (snd kv))) o.

(** The error object that [isFormValid] collects from the field records. *)
Definition errorStep (acc : Obj.t jsval) (kv : string * FormFieldType) : Obj.t jsval :=
  if truthy (orUndefined (error (snd kv)))
  then Obj.set (fst kv) (orUndefined (errorMessage (snd kv))) acc
  else acc.

Definition fieldErrors (_fields : Obj.t FormFieldType) : Obj.t jsval :=
  fold_left errorStep (Obj.entries _fields) Obj.empty.

(** [isFormValid] closes over the [unregisteredErrors] of its render. *)
Definition isFormValid (unregisteredErrors : Obj.t string)
    (_fields : Obj.t FormFieldType) : bool * option (Obj.t jsval) :=
  let errors := fieldErrors _fields in
  let valid := Nat.eqb (List.length (Obj.keys errors)) 0 in
  (valid,
   if objectTruthy errors then Some (Obj.spread errors (messages unregisteredErrors))
   else None).

(** [validateForm] closes over [schema], the [fields] of its render and,
    through [isFormValid], that render's [unregisteredErrors]. *)
Definition validateForm (schema : ZodSchema) (fields : Obj.t FormFieldType)
    (unregisteredErrors : Obj.t string) (touch : bool) : M FormCallbackArgs :=
  flat <- lift (flattenRegistered (Obj.entries fields) Obj.empty Obj.empty) ;;
  let flattenedFields := fst flat in
  let allRequiredFields := snd flat in
  let validationResult := schema allRequiredFields flattenedFields in
  let erroredFieldKeys := collectIssues validationResult in
  let allHandledErrorKeys := Obj.keys fields in
  let updatedFields := Obj.rebuild (validatedRecord erroredFieldKeys touch) fields in
  let unregisteredFieldErrors := unregisteredOf erroredFieldKeys allHandledErrorKeys in
  setUnregisteredErrors unregisteredFieldErrors ;;;
  setFields (fun _ => updatedFields) ;;;
  let validity := isFormValid unregisteredErrors updatedFields in
  simpleFields <- lift (flattenAll (Obj.entries updatedFields) Obj.empty) ;;
  ret {| fields := simpleFields;
         valid := fst validity;
         errors := match snd validity with
                   | Some errors => Some (Obj.spread errors (messages unregisteredFieldErrors))
                   | None => None
                   end |}.

(** ** FormController: submission *)

(** A submit handler, seen from [submitForm]: called with the validation
    result, the promise it returns later fulfils ([Normal]) or rejects
    ([Throw]); a handler that throws at once is a rejection too. *)
Definition Handler : Type := FormCallbackArgs -> Completion unit.

(** Where the first, synchronous part of a [submitForm] call stops: it has
    returned, or it is suspended at [await] on the handler's promise. *)
Inductive Suspension : Type :=
| Returned
| Awaiting (settles : Completion unit).

(** [await h(handlerParams)]: the call is made now, the result comes later. *)
Definition invoke (h : Handler) (handlerParams : FormCallbackArgs) : M Suspension :=
  fun w =>
    (Normal (Awaiting (h handlerParams)),
     mkEffects (pending w) (console w) (handlerCalls w ++ [handlerParams])).

(** [submitForm] up to its [await].  [snapshot] is the state of the render
    that created this callback: the guard reads [submitting] there. *)
Definition submitForm_start (schema : ZodSchema) (onSubmit : option Handler)
    (snapshot : FormState) (submitHandler : option Handler) : M Suspension :=
  if st_submitting snapshot then
    warn "Cannot submit a form while is it already submitting" ;;;
    ret Returned
  else
    setSubmitting true ;;;
    handlerParams <- validateForm schema (st_fields snapshot)
                       (st_unregisteredErrors snapshot) true ;;
    match submitHandler with
    | Some h => invoke h handlerParams
    | None =>
        match onSubmit with
        | Some h => invoke h handlerParams
        | None => setSubmitting false ;;; ret Returned
        end
    end.

(** [submitForm] from its [await] on: a fulfilled promise lets the call go
    on to [setSubmitting(false)], a rejected one rejects the call there. *)
Definition submitForm_resume (s : Suspension) : M unit :=
  match s with
  | Returned => ret tt
  | Awaiting (Normal _) => setSubmitting false
  | Awaiting (Throw e) => throw e
  end.

(** A [submitForm] call that nothing interleaves with. *)
Definition submitForm (schema : ZodSchema) (onSubmit : option Handler)
    (snapshot : FormState) (submitHandler : option Handler) : M unit :=
  s <- submitForm_start schema onSubmit snapshot submitHandler ;;
  submitForm_resume s.

(** Run a call to its completion without letting a throw escape: each
    [submitForm] call has a promise of its own. *)
Definition settle {A : Type} (c : M A) : M (Completion A) :=
  fun w => (Normal (fst (c w)), snd (c w)).

Definition submitForm_finish (s : Completion Suspension) : M unit :=
  match s with
  | Normal s' => submitForm_resume s'
  | Throw e => throw e
  end.

(** Two calls on the callback of one render, the second made before the
    first is awaited; then both promises settle.  The result is the outcome
    of the first and of the second call. *)
Definition submitTwice (schema : ZodSchema) (onSubmit : option Handler)
    (snapshot : FormState) (submitHandler : option Handler)
    : M (Completion unit * Completion unit) :=
  s1 <- settle (submitForm_start schema onSubmit snapshot submitHandler) ;;
  s2 <- settle (submitForm_start schema onSubmit snapshot submitHandler) ;;
  o1 <- settle (submitForm_finish s1) ;;
  o2 <- settle (submitForm_finish s2) ;;
  ret (o1, o2).

(** The state a fresh render starts from when nothing else is pending. *)
Definition quiet (s : FormState) : Effects := mkEffects s [] [].

(** ** FieldBinding: the context value of [Field] *)

Record FieldContextType : Type := mkFieldContext {
  intent : jsval;
  binding : FormFieldType
}.

(** [field?.key] *)
Definition optionalKey (field : option FormFieldType)
    (key : FormFieldType -> option jsval) : jsval :=
  match field with
  | Some f => orUndefined (key f)
  | None => VUndefined
  end.

(** [{ ..., intent, ...field, error: field?.error && field?.touched }] *)
Definition contextValue (fields : Obj.t FormFieldType) (name : string) (intent : jsval)
    : FieldContextType :=
  let field := Obj.get name fields in
  {| intent := intent;
     binding :=
       mergeField (orEmpty field)
         (mkField None None None None
                  (Some (js_and (optionalKey field error) (optionalKey field touched)))
                  None None None) |}.

(** ** ArrayGroupController: the handlers of [FieldArray] *)

(** The property name under which a number is stored. *)
Definition numberKey (n : option nat) : string :=
  match n with
  | Some i => showNat i
  | None => "NaN"
  end.

(** [indexedMap]: for every stored name that starts with [name] and holds a
    dot, the record under the number its second segment reads as. *)
Definition indexedMap (fields : Obj.t FormFieldType) (name : string)
    : Obj.t FormFieldType :=
  fold_left
    (fun acc kv =>
       if startsWith (fst kv) name && includes_dot (fst kv)
       then Obj.set (numberKey (Number (secondSegment (fst kv)))) (snd kv) acc
       else acc)
    (Obj.entries fields) Obj.empty.

(** [Object.keys(indexedMap).length] *)
Definition itemCount (fields : Obj.t FormFieldType) (name : string) : nat :=
  List.length (Obj.keys (indexedMap fields name)).

Definition addHandler (initialValues : Obj.t jsval) (initialTouched : jsval)
    (fields : Obj.t FormFieldType) (name : string) (item : jsval) : M unit :=
  setFields
    (registerField initialValues initialTouched
       (itemKey name (Z.of_nat (itemCount fields name)))
       (mkField None None None (Some item) None None None None) false).

(** The indices [itemIndex, itemIndex + 1, ...] below [bound]. *)
Definition loopIndices (itemIndex bound : Z) : list Z :=
  map (fun j => (itemIndex + Z.of_nat j)%Z) (seq 0 (Z.to_nat (bound - itemIndex))).

(** [removeHandler]: [fields] is the registry of the render that created
    the handler; each [updateField] and the [deleteField] is an updater
    applied to the pending registry. *)
Definition removeHandler (fields : Obj.t FormFieldType) (name : string)
    (itemIndex : Z) : M unit :=
  let n := Z.of_nat (itemCount fields name) in
  let _fields := fields in
  fold_left
    (fun (m : M unit) i =>
       m ;;; setFields (updateField (itemKey name i)
                          (orEmpty (Obj.get (itemKey name (i + 1)) _fields))))
    (loopIndices itemIndex (n - 1)) (ret tt) ;;;
  setFields (deleteField (itemKey name (n - 1))).

(** The registry that React commits after [removeHandler], when the handler
    was created by the current render and nothing else is pending. *)
Definition afterRemove (fields : Obj.t FormFieldType) (name : string) (itemIndex : Z)
    : Obj.t FormFieldType :=
  st_fields (pending (snd (removeHandler fields name itemIndex
                             (quiet (mkState fields Obj.empty false))))).

(** ** Sequences of registry calls *)

Inductive RegistryCall : Type :=
| Register (name : string) (field : FormFieldType) (isArray : bool)
| Unregister (name : string)
| Reregister (name : string).

Definition applyCall (initialValues : Obj.t jsval) (initialTouched : jsval)
    (c : RegistryCall) (fs : Obj.t FormFieldType) : Obj.t FormFieldType :=
  match c with
  | Register name field isArray => registerField initialValues initialTouched name field isArray fs
  | Unregister name => unregisterField name fs
  | Reregister name => reregisterField name fs
  end.

(** The registry after a sequence of calls on a freshly mounted form. *)
Definition runCalls (initialValues : Obj.t jsval) (initialTouched : jsval)
    (calls : list RegistryCall) : Obj.t FormFieldType :=
  fold_left (fun fs c => applyCall initialValues initialTouched c fs) calls Obj.empty.

(** Two field objects that agree on every key but [_registered]. *)
Definition sameButRegistered (a b : FormFieldType) : Prop :=
  required a = required b /\ touched a = touched b /\
  originalValue a = originalValue b /\ value a = value b /\
  error a = error b /\ errorMessage a = errorMessage b /\ _item a = _item b.

(** ** The outcome of a validation pass, named for the statements below *)

(** What the validator answers on the value tree of the registered fields. *)
Definition validationResultOf (schema : ZodSchema) (fields : Obj.t FormFieldType)
    : Completion SafeParseResult :=
  match flattenRegistered (Obj.entries fields) Obj.empty Obj.empty with
  | Normal flat => Normal (schema (snd flat) (fst flat))
  | Throw e => Throw e
  end.

(** [erroredFieldKeys] of the pass (empty when flattening throws). *)
Definition erroredFieldKeysOf (schema : ZodSchema) (fields : Obj.t FormFieldType)
    : Obj.t string :=
  match validationResultOf schema fields with
  | Normal r => collectIssues r
  | Throw _ => Obj.empty
  end.

(** Handled error keys: the error keys that name a stored field. *)
Definition handledErrorKeys (erroredFieldKeys : Obj.t string)
    (fields : Obj.t FormFieldType) : list string :=
  filter (fun k => includes (Obj.keys fields) k) (Obj.keys erroredFieldKeys).

(** Unregistered error keys: the error keys that name no stored field. *)
Definition unregisteredErrorKeys (erroredFieldKeys : Obj.t string)
    (fields : Obj.t FormFieldType) : list string :=
  filter (fun k => negb (includes (Obj.keys fields) k)) (Obj.keys erroredFieldKeys).

Definition hasMessage (erroredFieldKeys : Obj.t string) (k : string) : bool :=
  match erroredMessage erroredFieldKeys k with
  | Some _ => true
  | None => false
  end.

(** The handled error keys that [validateForm] attaches to their field:
    those whose message is not the empty string. *)
Definition attachedErrorKeys (erroredFieldKeys : Obj.t string)
    (fields : Obj.t FormFieldType) : list string :=
  filter (hasMessage erroredFieldKeys) (handledErrorKeys erroredFieldKeys fields).

(** The handler that a [submitForm] call uses. *)
Definition chosenHandler (submitHandler onSubmit : option Handler) : option Handler :=
  match submitHandler with
  | Some h => Some h
  | None => onSubmit
  end.

(** ** Worked inputs *)

(** A field object as [registerField] leaves it, with the given value,
    [required], [touched] and [error] flags. *)
Definition storedField (v : jsval) (isRequired isTouched hasError : bool) : FormFieldType :=
  {| required := Some (VBool isRequired);
     touched := Some (VBool isTouched);
     originalValue := Some v;
     value := Some v;
     error := Some (VBool hasError);
     errorMessage := Some VNull;
     _registered := Some (VBool true);
     _item := Some (VBool false) |}.

(** A validator that wants a non-empty [email], and a street that no field
    exposes once [email] is given as hidden. *)
Definition emailSchema : ZodSchema :=
  fun _ tree =>
    match Obj.get "email" tree with
    | Some (VStr "") => ParseFailure [mkIssue [PKey "email"] "Required"]
    | Some (VStr "hidden") =>
        ParseFailure [mkIssue [PKey "address"; PKey "street"] "Required"]
    | _ => ParseSuccess
    end.

Definition emailForm (v : string) : Obj.t FormFieldType :=
  [("email", storedField (VStr v) false false false)].

Definition mounted (fs : Obj.t FormFieldType) : FormState := mkState fs Obj.empty false.

Definition rejecting : Handler := fun _ => Throw (Thrown (VStr "server unavailable")).
Definition fulfilling : Handler := fun _ => Normal tt.

(** Two array groups whose names share a prefix: one item in tag, two in tags. *)
Definition tagAndTags : Obj.t FormFieldType :=
  [("tag.0", storedField (VStr "a") false true true);
   ("tags.0", storedField (VStr "x") false false false);
   ("tags.1", storedField (VStr "y") false false false)].

(** A field object that has all eight keys, as every object written by
    [registerField] has. *)
Definition complete (f : FormFieldType) : Prop :=
  required f <> None /\ touched f <> None /\ originalValue f <> None /\
  value f <> None /\ error f <> None /\ errorMessage f <> None /\
  _registered f <> None /\ _item f <> None.

(** [`${name}.${i}`] for a natural index. *)
Definition itemName (name : string) (i : nat) : string := itemKey name (Z.of_nat i).

(** One array group of three items; the first carries an error. *)
Definition threeTags : Obj.t FormFieldType :=
  [("tags.0", storedField (VStr "a") false true true);
   ("tags.1", storedField (VStr "b") false false false);
   ("tags.2", storedField (VStr "c") false true false)].

Definition threeTagsItem (i : nat) : FormFieldType :=
  nth i [storedField (VStr "a") false true true;
         storedField (VStr "b") false false false;
         storedField (VStr "c") false true false] emptyField.

(** ** The setters and the effects of [Field] *)

(** [setTouched], [setError], [setErrorMessage] and [setValue] of the field
    called [name]: each is one [updateField]. *)
Definition setTouched (name : string) (_touched : bool)
    : Obj.t FormFieldType -> Obj.t FormFieldType :=
  updateField name (mkField None (Some (VBool _touched)) None None None None None None).

(** [_errorMessage] is a string or undefined ([None]); the test on it is a
    truthiness test, so the empty string counts as no message. *)
Definition setError (name : string) (_error : bool) (_errorMessage : option string)
    : Obj.t FormFieldType -> Obj.t FormFieldType :=
  updateField name
    (mergeField
       (mkField None None None None (Some (VBool _error)) None None None)
       (if _error then
          match _errorMessage with
          | Some m =>
              if String.eqb m EmptyString then emptyField
              else mkField None None None None None (Some (VStr m)) None None
          | None => emptyField
          end
        else mkField None None None None None (Some VUndefined) None None)).

Definition setErrorMessage (name : string) (_errorMessage : jsval)
    : Obj.t FormFieldType -> Obj.t FormFieldType :=
  updateField name
    (mkField None None None None None (Some (js_or _errorMessage VUndefined)) None None).

Definition setValue (name : string) (_value : jsval)
    : Obj.t FormFieldType -> Obj.t FormFieldType :=
  updateField name (mkField None None None (Some _value) None None None None).

(** What the change handler installed by [withField] does to the registry
    once the value is cast: [field.setValue(v); field.setTouched(true)]. *)
Definition changeValue (name : string) (castedValue : jsval)
    (prev : Obj.t FormFieldType) : Obj.t FormFieldType :=
  setTouched name true (setValue name castedValue prev).

(** The mount effect of [Field]: [fields] is the registry of the render the
    effect belongs to.  The result tells whether a cleanup (which unregisters
    the name) was returned. *)
Definition fieldMountEffect (initialValues : Obj.t jsval) (initialTouched : jsval)
    (hold : bool) (fields : Obj.t FormFieldType) (name : string)
    (fieldOptions : FormFieldType) : M bool :=
  if hold || isFieldRegistered fields name then ret false
  else (setFields (registerField initialValues initialTouched name fieldOptions false) ;;;
        ret true)%js.

(** ** The views of [FieldArray] *)

(** [arr[i] = x] on an array with holes ([None]). *)
Fixpoint putAt {A : Type} (arr : list (option A)) (i : nat) (x : A) : list (option A) :=
  match i, arr with
  | O, [] => [Some x]
  | O, _ :: rest => Some x :: rest
  | S i', [] => None :: putAt [] i' x
  | S i', y :: rest => y :: putAt rest i' x
  end.

(** [computedArrayValue], the [items] handed to the children: the selected
    records by the number of their second segment.  A record under NaN
    becomes a property of the array, not an element, and is not listed. *)
Definition computedArrayValue (fields : Obj.t FormFieldType) (name : string)
    : list (option FormFieldType) :=
  fold_left
    (fun _val kv =>
       if startsWith (fst kv) name && includes_dot (fst kv)
       then match Number (secondSegment (fst kv)) with
            | Some i => putAt _val i (snd kv)
            | None => _val
            end
       else _val)
    (Obj.entries fields) [].

(** One step of the [reduce] of [listErrors].  By its declared type a value
    of [errors] is a string, null or undefined; of these only a non-empty
    string is truthy. *)
Definition listErrorStep (name : string) (acc : list string) (kv : string * jsval)
    : list string :=
  if startsWith (fst kv) name then
    match snd kv with
    | VStr v =>
        if negb (String.eqb v EmptyString) && negb (includes acc v)
        then (acc ++ [v])%list
        else acc
    | _ => acc
    end
  else acc.

(** [listErrors?.length ? listErrors : undefined] over [errors || {}]. *)
Definition listErrors (errors : option (Obj.t jsval)) (name : string)
    : option (list string) :=
  let collected :=
    fold_left (listErrorStep name)
      (Obj.entries (match errors with Some e => e | None => Obj.empty end)) [] in
  match collected with
  | [] => None
  | _ :: _ => Some collected
  end.

(** ** Every updater of the registry *)

Inductive RegistryOp : Type :=
| OpRegister (name : string) (field : FormFieldType) (isArray : bool)
| OpReregister (name : string)
| OpUnregister (name : string)
| OpDelete (name : string)
| OpUpdate (name : string) (field : FormFieldType)
| OpTouch
| OpReset
| OpClear
| OpValidate (schema : ZodSchema) (touch : bool).

(** The registry after one updater.  For [OpValidate] it is the registry
    that a validation pass of the current render writes. *)
Definition applyOp (initialValues : Obj.t jsval) (initialTouched : jsval)
    (op : RegistryOp) (fs : Obj.t FormFieldType) : Obj.t FormFieldType :=
  match op with
  | OpRegister name field isArray =>
      registerField initialValues initialTouched name field isArray fs
  | OpReregister name => reregisterField name fs
  | OpUnregister name => unregisterField name fs
  | OpDelete name => deleteField name fs
  | OpUpdate name field => updateField name field fs
  | OpTouch => touchForm fs
  | OpReset => resetForm fs
  | OpClear => clearForm fs
  | OpValidate schema touch =>
      Obj.rebuild (validatedRecord (erroredFieldKeysOf schema fs) touch) fs
  end.

Definition runOps (initialValues : Obj.t jsval) (initialTouched : jsval)
    (ops : list RegistryOp) : Obj.t FormFieldType :=
  fold_left (fun fs op => applyOp initialValues initialTouched op fs) ops Obj.empty.

Definition isDelete (op : RegistryOp) : bool :=
  match op with
  | OpDelete _ => true
  | _ => false
  end.

(** The registered entries of a registry, in order. *)
Definition registeredOnly (fs : Obj.t FormFieldType) : Obj.t FormFieldType :=
  filter (fun kv => truthy (orUndefined (_registered (snd kv)))) fs.

(** The registry that a validation pass on [fields] writes. *)
Definition validatedFields (schema : ZodSchema) (touch : bool)
    (fields : Obj.t FormFieldType) : Obj.t FormFieldType :=
  Obj.rebuild (validatedRecord (erroredFieldKeysOf schema fields) touch) fields.

(** The message of the last issue whose path joins to [k]. *)
Fixpoint lastMessage (k : string) (issues : list ZodIssue) : option string :=
  match issues with
  | [] => None
  | i :: rest =>
      match lastMessage k rest with
      | Some m => Some m
      | None => if String.eqb k (joinPath (path i)) then Some (message i) else None
      end
  end.

(** The record that an array registration stores for one element. *)
Definition arrayItemField (initialTouched : jsval) (field : FormFieldType) (item : jsval)
    : FormFieldType :=
  freshField initialTouched item item item field true.

(** A value that is not an object: a property cannot be created on it. *)
Definition isPrimitive (v : jsval) : bool :=
  match v with
  | VArr _ | VObj _ => false
  | _ => true
  end.

(** The registry that React commits after [addHandler], when the handler
    was created by the current render and nothing else is pending. *)
Definition afterAdd (initialValues : Obj.t jsval) (initialTouched : jsval)
    (fields : Obj.t FormFieldType) (name : string) (item : jsval)
    : Obj.t FormFieldType :=
  st_fields (pending (snd (addHandler initialValues initialTouched fields name item
                             (quiet (mkState fields Obj.empty false))))).

(** The record that [add] registers for the item at index [n]. *)
Definition addedField (initialValues : Obj.t jsval) (initialTouched : jsval)
    (name : string) (n : nat) (added : jsval) : FormFieldType :=
  freshField initialTouched (resolveInitial initialValues (itemName name n))
    (js_nullish (resolveInitial initialValues (itemName name n)) VUndefined)
    (js_nullish added VUndefined)
    (mkField None None None (Some added) None None None None) true.

(** An [items] array under construction for a group of [n] items: it holds,
    at each index, nothing or the item of that index, and is no longer than
    the group. *)
Definition itemsSoFar (n : nat) (item : nat -> FormFieldType)
    (val : list (option FormFieldType)) : Prop :=
  List.length val <= n /\
  forall j, nth j val None = None \/ nth j val None = Some (item j).

(** * Properties *)

(** ** Dictionary lemmas *)

Module ObjFacts.
Local Open Scope list_scope.
Section Facts.
Context {V : Type}.
Implicit Types (o acc : Obj.t V) (k : string) (v : V).

Lemma get_set_eq k v o : Obj.get k (Obj.set k v o) = Some v.
Proof.
  induction o as [|[k' v'] o IH]; simpl.
  - now rewrite String.eqb_refl.
  - destruct (String.eqb k k') eqn:E; simpl; rewrite ?String.eqb_refl, ?E; auto.
Qed.

Lemma get_set_ne k k' v o : k <> k' -> Obj.get k' (Obj.set k v o) = Obj.get k' o.
Proof.
  intros Hne. induction o as [|[k2 v2] o IH]; simpl.
  - destruct (String.eqb k' k) eqn:E; auto.
    apply String.eqb_eq in E. congruence.
  - destruct (String.eqb k k2) eqn:E; simpl.
    + apply String.eqb_eq in E. subst k2.
      destruct (String.eqb k' k) eqn:E'; auto.
      apply String.eqb_eq in E'. congruence.
    + now rewrite IH.
Qed.

Lemma get_remove_eq k o : Obj.get k (Obj.remove k o) = None.
Proof.
  induction o as [|[k' v'] o IH]; simpl; auto.
  destruct (String.eqb k k') eqn:E; simpl; rewrite ?E; auto.
Qed.

Lemma get_remove_ne k k' o : k <> k' -> Obj.get k' (Obj.remove k o) = Obj.get k' o.
Proof.
  intros Hne. induction o as [|[k2 v2] o IH]; simpl; auto.
  destruct (String.eqb k k2) eqn:E; simpl.
  - apply String.eqb_eq in E. subst k2.
    destruct (String.eqb k' k) eqn:E'; auto.
    apply String.eqb_eq in E'. congruence.
  - now rewrite IH.
Qed.

Lemma get_None_keys k o : Obj.get k o = None <-> ~ In k (Obj.keys o).
Proof.
  induction o as [|[k' v'] o IH]; simpl.
  - tauto.
  - destruct (String.eqb k k') eqn:E.
    + apply String.eqb_eq in E. subst. split; [discriminate | tauto].
    + apply String.eqb_neq in E. rewrite IH. split; [intros H [H'|H']; congruence | tauto].
Qed.

Lemma get_Some_In k v o : Obj.get k o = Some v -> In (k, v) o.
Proof.
  induction o as [|[k' v'] o IH]; simpl; [discriminate|].
  destruct (String.eqb k k') eqn:E.
  - apply String.eqb_eq in E. intros [= ->]. subst. now left.
  - auto.
Qed.

(** Writing an absent key appends it. *)
Lemma set_fresh k v o : Obj.get k o = None -> Obj.set k v o = o ++ [(k, v)].
Proof.
  induction o as [|[k' v'] o IH]; simpl; auto.
  destruct (String.eqb k k'); [discriminate|].
  intros H. now rewrite IH.
Qed.

Lemma set_not_empty k v o : Obj.set k v o <> [].
Proof. destruct o as [|[k' v'] o]; simpl; [|destruct (String.eqb k k')]; discriminate. Qed.

Lemma keys_set k v o :
  Obj.keys (Obj.set k v o) = if in_dec string_dec k (Obj.keys o) then Obj.keys o
                             else Obj.keys o ++ [k].
Proof.
  induction o as [|[k' v'] o IH]; simpl; auto.
  destruct (String.eqb k k') eqn:E.
  - apply String.eqb_eq in E. subst k'. simpl.
    destruct (string_dec k k); [|congruence].
    destruct (in_dec string_dec k (Obj.keys o)); reflexivity.
  - apply String.eqb_neq in E. simpl. rewrite IH.
    destruct (string_dec k' k); [congruence|].
    destruct (in_dec string_dec k (Obj.keys o)); reflexivity.
Qed.

Lemma keys_set_NoDup k v o : NoDup (Obj.keys o) -> NoDup (Obj.keys (Obj.set k v o)).
Proof.
  intros H. rewrite keys_set. destruct (in_dec string_dec k (Obj.keys o)); auto.
  apply NoDup_app; auto.
  - constructor; [intros []|constructor].
  - intros x Hx [<-|[]]. contradiction.
Qed.

Lemma In_set k v o k' v' :
  In (k', v') (Obj.set k v o) -> (k' = k /\ v' = v) \/ In (k', v') o.
Proof.
  induction o as [|[k2 v2] o IH]; simpl.
  - intros [[= <- <-]|[]]. auto.
  - destruct (String.eqb k k2); simpl.
    + intros [[= <- <-]|H]; auto.
    + intros [H|H]; auto. destruct (IH H); auto.
Qed.

Lemma keys_set_incl k v o k' : In k' (Obj.keys o) -> In k' (Obj.keys (Obj.set k v o)).
Proof.
  rewrite keys_set. destruct (in_dec string_dec k (Obj.keys o)); auto.
  intros H. apply in_or_app. now left.
Qed.

(** *** [Obj.rebuild] *)

Lemma rebuild_fold f o : Obj.rebuild f o = fold_left (Obj.rebuildStep f) o [].
Proof. reflexivity. Qed.

Lemma fold_rebuild_NoDup f l acc :
  NoDup (Obj.keys acc) -> NoDup (Obj.keys (fold_left (Obj.rebuildStep f) l acc)).
Proof.
  revert acc. induction l as [|[k v] l IH]; simpl; intros acc H; auto.
  apply IH. now apply keys_set_NoDup.
Qed.

Lemma rebuild_NoDup f o : NoDup (Obj.keys (Obj.rebuild f o)).
Proof. apply fold_rebuild_NoDup. constructor. Qed.

Lemma fold_rebuild_In f l acc k v' :
  In (k, v') (fold_left (Obj.rebuildStep f) l acc) ->
  In (k, v') acc \/ exists v, In (k, v) l /\ v' = f k v.
Proof.
  revert acc. induction l as [|[k2 v2] l IH]; simpl; intros acc H; auto.
  destruct (IH _ H) as [H1|(v & Hin & ->)].
  - unfold Obj.rebuildStep in H1. simpl in H1.
    destruct (In_set _ _ _ _ _ H1) as [[-> ->]|H2]; eauto.
  - eauto.
Qed.

Lemma rebuild_In f o k v' :
  In (k, v') (Obj.rebuild f o) -> exists v, In (k, v) o /\ v' = f k v.
Proof.
  intros H. destruct (fold_rebuild_In _ _ _ _ _ H) as [[]|H']. exact H'.
Qed.

Lemma fold_rebuild_keys f l acc k :
  In k (Obj.keys acc) \/ In k (Obj.keys l) ->
  In k (Obj.keys (fold_left (Obj.rebuildStep f) l acc)).
Proof.
  revert acc. induction l as [|[k2 v2] l IH]; simpl; intros acc H.
  - destruct H as [H|[]]. exact H.
  - apply IH. unfold Obj.rebuildStep. simpl.
    destruct H as [H|[<-|H]]; auto.
    + left. now apply keys_set_incl.
    + left. rewrite keys_set. destruct (in_dec string_dec k2 (Obj.keys acc)); auto.
      apply in_or_app. right. now left.
Qed.

Lemma rebuild_keys f o k : In k (Obj.keys o) -> In k (Obj.keys (Obj.rebuild f o)).
Proof. intros H. apply fold_rebuild_keys. now right. Qed.

(** On a dictionary whose keys are distinct, a rebuild by a function that
    fixes every stored value changes nothing. *)
Lemma fold_rebuild_fixed f l acc :
  NoDup (Obj.keys (acc ++ l)) ->
  (forall k v, In (k, v) l -> f k v = v) ->
  fold_left (Obj.rebuildStep f) l acc = acc ++ l.
Proof.
  revert acc. induction l as [|[k v] l IH]; simpl; intros acc Hnd Hfix.
  - now rewrite app_nil_r.
  - unfold Obj.rebuildStep at 2. simpl. rewrite (Hfix k v) by now left.
    rewrite set_fresh.
    + rewrite IH.
      * now rewrite <- app_assoc.
      * now rewrite <- app_assoc.
      * intros k' v' H. apply Hfix. now right.
    + apply get_None_keys. unfold Obj.keys in *. rewrite map_app in Hnd. simpl in Hnd.
      apply NoDup_remove_2 in Hnd. intros Hin. apply Hnd. apply in_or_app. now left.
Qed.

Lemma rebuild_idempotent f o :
  (forall k v, f k (f k v) = f k v) ->
  Obj.rebuild f (Obj.rebuild f o) = Obj.rebuild f o.
Proof.
  intros Hf. rewrite (rebuild_fold f (Obj.rebuild f o)).
  apply (fold_rebuild_fixed f (Obj.rebuild f o) []).
  - apply rebuild_NoDup.
  - intros k v H. apply rebuild_In in H. destruct H as (v0 & _ & ->). apply Hf.
Qed.

(** With distinct keys a rebuild is a map over the values. *)
Lemma fold_rebuild_map f l acc :
  NoDup (Obj.keys (acc ++ l)) ->
  fold_left (Obj.rebuildStep f) l acc = acc ++ map (fun kv => (fst kv, f (fst kv) (snd kv))) l.
Proof.
  revert acc. induction l as [|[k v] l IH]; simpl; intros acc Hnd.
  - now rewrite app_nil_r.
  - unfold Obj.rebuildStep at 2. simpl. rewrite set_fresh.
    + rewrite IH.
      * now rewrite <- app_assoc.
      * unfold Obj.keys in *. rewrite <- app_assoc. simpl.
        rewrite !map_app in *. simpl in *. exact Hnd.
    + apply get_None_keys. unfold Obj.keys in *. rewrite map_app in Hnd. simpl in Hnd.
      apply NoDup_remove_2 in Hnd. intros Hin. apply Hnd. apply in_or_app. now left.
Qed.

Lemma get_map_values (g : string -> V -> V) k o :
  Obj.get k (map (fun kv => (fst kv, g (fst kv) (snd kv))) o) = option_map (g k) (Obj.get k o).
Proof.
  induction o as [|[k' v'] o IH]; simpl; auto.
  destruct (String.eqb k k') eqn:E; auto.
  apply String.eqb_eq in E. now subst.
Qed.

Lemma get_rebuild f k o :
  NoDup (Obj.keys o) -> Obj.get k (Obj.rebuild f o) = option_map (f k) (Obj.get k o).
Proof.
  intros H. rewrite rebuild_fold, (fold_rebuild_map f o []) by exact H.
  simpl. apply get_map_values.
Qed.

End Facts.
End ObjFacts.

(** ** Field objects *)

Lemma override_None_l (b : option jsval) : override None b = b.
Proof. now destruct b. Qed.

Lemma mergeField_empty_l (f : FormFieldType) : mergeField emptyField f = f.
Proof. destruct f; unfold mergeField; simpl. now rewrite !override_None_l. Qed.

Lemma mergeField_registered_same (r : FormFieldType) (b : bool) :
  sameButRegistered r (mergeField r (set_registered b)) /\
  _registered (mergeField r (set_registered b)) = Some (VBool b).
Proof. unfold sameButRegistered. destruct r; simpl. repeat split. Qed.

Lemma sameButRegistered_trans (a b c : FormFieldType) :
  sameButRegistered a b -> sameButRegistered b c -> sameButRegistered a c.
Proof. unfold sameButRegistered. intuition congruence. Qed.

Lemma value_resetRecord (v : FormFieldType) :
  value (resetRecord v) = Some (js_nullish (orUndefined (originalValue v)) VUndefined).
Proof. reflexivity. Qed.

Lemma resetRecord_idempotent (v : FormFieldType) : resetRecord (resetRecord v) = resetRecord v.
Proof. destruct v as [? ? [ov|] ? ? ? ? ?]; reflexivity. Qed.

(** ** FieldRegistry *)

Section RegistryFacts.
Local Open Scope list_scope.
Import ObjFacts.

(** C4, as the code has it.  For a name that is not stored, [updateField],
    [unregisterField] and [reregisterField] return normally and leave every
    stored entry as it was, but each of them creates an entry for the name at
    the end of the registry: the partial itself, and an object holding only
    [_registered] set to false, respectively to true. *)
Theorem unknown_name_is_created (name : string) (partial : FormFieldType)
    (fs : Obj.t FormFieldType) :
  Obj.get name fs = None ->
  updateField name partial fs = fs ++ [(name, partial)] /\
  unregisterField name fs = fs ++ [(name, set_registered false)] /\
  reregisterField name fs = fs ++ [(name, set_registered true)].
Proof.
  intros H. unfold updateField, unregisterField, reregisterField.
  rewrite H. simpl orEmpty. rewrite !mergeField_empty_l.
  repeat split; now apply set_fresh.
Qed.

Lemma unknown_name_is_created_witness :
  updateField "ghost" (mkField None (Some (VBool true)) None None None None None None)
    [("email", emptyField)]
  = [("email", emptyField);
     ("ghost", mkField None (Some (VBool true)) None None None None None None)].
Proof.
  exact (proj1 (unknown_name_is_created "ghost"
                  (mkField None (Some (VBool true)) None None None None None None)
                  [("email", emptyField)] eq_refl)).
Defined.

(** C4, as the specification states it, fails on the empty registry: none of
    the three calls is a no-op on a name that was never registered, each
    leaves an entry for it. *)
Lemma unknown_name_not_a_noop :
  Obj.get "ghost" (Obj.empty : Obj.t FormFieldType) = None /\
  Obj.keys (updateField "ghost" emptyField Obj.empty) = ["ghost"] /\
  Obj.keys (unregisterField "ghost" Obj.empty) = ["ghost"] /\
  Obj.keys (reregisterField "ghost" Obj.empty) = ["ghost"] /\
  isFieldRegistered (reregisterField "ghost" Obj.empty) "ghost" = true.
Proof. repeat split. Qed.

(** An unregister/reregister cycle on a stored name, from any registry. *)
Lemma cycle_on_stored (name : string) (r : FormFieldType) (fs : Obj.t FormFieldType) :
  Obj.get name fs = Some r ->
  Obj.get name (unregisterField name fs) = Some (mergeField r (set_registered false)) /\
  Obj.get name (reregisterField name (unregisterField name fs))
  = Some (mergeField (mergeField r (set_registered false)) (set_registered true)).
Proof.
  intros H.
  assert (H1 : Obj.get name (unregisterField name fs)
               = Some (mergeField r (set_registered false))).
  { unfold unregisterField. now rewrite get_set_eq, H. }
  split; [exact H1|].
  unfold reregisterField. now rewrite get_set_eq, H1.
Qed.

Lemma keys_set_stored (name : string) (r v : FormFieldType) (fs : Obj.t FormFieldType) :
  Obj.get name fs = Some r -> Obj.keys (Obj.set name v fs) = Obj.keys fs.
Proof.
  intros H. rewrite keys_set. destruct (in_dec string_dec name (Obj.keys fs)) as [|n]; auto.
  exfalso. apply get_None_keys in n. congruence.
Qed.

(** C8.  After any sequence of register, unregister and reregister calls,
    unregistering a stored field keeps every attribute but [_registered],
    which becomes false; reregistering it then keeps them again and sets
    [_registered] to true.  The cycle leaves the value of the field, the
    other stored fields and the set of stored names as they were. *)
Theorem unregister_reregister_cycle (initialValues : Obj.t jsval) (initialTouched : jsval)
    (calls : list RegistryCall) (name : string) (r : FormFieldType) :
  Obj.get name (runCalls initialValues initialTouched calls) = Some r ->
  let fs := runCalls initialValues initialTouched calls in
  (exists r1, Obj.get name (unregisterField name fs) = Some r1 /\
              sameButRegistered r r1 /\ _registered r1 = Some (VBool false)) /\
  (exists r2, Obj.get name (reregisterField name (unregisterField name fs)) = Some r2 /\
              sameButRegistered r r2 /\ value r2 = value r /\
              _registered r2 = Some (VBool true)) /\
  (forall other, other <> name ->
     Obj.get other (reregisterField name (unregisterField name fs)) = Obj.get other fs) /\
  Obj.keys (reregisterField name (unregisterField name fs)) = Obj.keys fs.
Proof.
  intros H fs. destruct (cycle_on_stored name r fs H) as [H1 H2].
  destruct (mergeField_registered_same r false) as [Ha Hb].
  destruct (mergeField_registered_same (mergeField r (set_registered false)) true) as [Hc Hd].
  split; [|split; [|split]].
  - eexists. eauto.
  - eexists. split; [exact H2|]. split; [|split; [|exact Hd]].
    + eapply sameButRegistered_trans; eauto.
    + destruct r; reflexivity.
  - intros other Hne. unfold reregisterField, unregisterField.
    rewrite !get_set_ne by congruence. reflexivity.
  - unfold reregisterField. erewrite keys_set_stored by exact H1.
    unfold unregisterField. erewrite keys_set_stored by exact H. reflexivity.
Qed.

Lemma unregister_reregister_cycle_witness :
  exists r2,
    Obj.get "email"
      (reregisterField "email"
         (unregisterField "email"
            (runCalls [("email", VStr "a@b.com")] VUndefined
               [Register "email" emptyField false; Unregister "email";
                Register "name" emptyField false]))) = Some r2 /\
    value r2 = Some (VStr "a@b.com").
Proof.
  destruct (unregister_reregister_cycle [("email", VStr "a@b.com")] VUndefined
              [Register "email" emptyField false; Unregister "email";
               Register "name" emptyField false]
              "email" _ eq_refl) as (_ & (r2 & H2 & _ & Hv & _) & _).
  exists r2. split; [exact H2 | exact Hv].
Defined.

(** C9.  [resetForm] is idempotent on every registry: a second reset in a
    row returns the registry of the first, record by record. *)
Theorem resetForm_idempotent (fs : Obj.t FormFieldType) :
  resetForm (resetForm fs) = resetForm fs.
Proof.
  unfold resetForm. apply rebuild_idempotent.
  intros _ v. apply resetRecord_idempotent.
Qed.

(** What a non-array registration stores. *)
Lemma registerField_scalar (initialValues : Obj.t jsval) (initialTouched : jsval)
    (name : string) (field : FormFieldType) (prev : Obj.t FormFieldType) :
  registerField initialValues initialTouched name field false prev
  = Obj.set name
      (freshField initialTouched (resolveInitial initialValues name)
         (js_nullish (resolveInitial initialValues name) VUndefined)
         (js_nullish (orUndefined (value field)) VUndefined)
         field (includes_dot name))
      prev.
Proof. reflexivity. Qed.

(** C5, on the code.  A non-array registration whose props carry neither
    [value] nor [originalValue] stores the resolved initial value as [value]
    but undefined as [originalValue], whatever the initial value is; a
    [resetForm] then sets the value of the field to undefined. *)
Theorem registerField_forgets_initial (initialValues : Obj.t jsval) (initialTouched : jsval)
    (name : string) (field : FormFieldType) (prev : Obj.t FormFieldType) :
  value field = None -> originalValue field = None -> NoDup (Obj.keys prev) ->
  let fs := registerField initialValues initialTouched name field false prev in
  (exists r, Obj.get name fs = Some r /\
             value r = Some (js_nullish (resolveInitial initialValues name) VUndefined) /\
             originalValue r = Some VUndefined) /\
  (exists r', Obj.get name (resetForm fs) = Some r' /\ value r' = Some VUndefined).
Proof.
  intros Hv Ho Hnd fs. subst fs. rewrite registerField_scalar.
  remember (freshField _ _ _ _ _ _) as r eqn:Er.
  assert (Hr : value r = Some (js_nullish (resolveInitial initialValues name) VUndefined)
               /\ originalValue r = Some VUndefined).
  { subst r. unfold freshField, mergeField. simpl. rewrite Hv, Ho. simpl. auto. }
  clear Er. split.
  - exists r. rewrite get_set_eq. tauto.
  - unfold resetForm. rewrite get_rebuild by now apply keys_set_NoDup.
    rewrite get_set_eq. exists (resetRecord r). split; [reflexivity|].
    rewrite value_resetRecord. destruct Hr as [_ ->]. reflexivity.
Qed.

Lemma registerField_forgets_initial_witness :
  let fs := registerField [("email", VStr "a@b.com")] VUndefined "email" emptyField false [] in
  (exists r, Obj.get "email" fs = Some r /\
             value r = Some (VStr "a@b.com") /\ originalValue r = Some VUndefined) /\
  (exists r', Obj.get "email" (resetForm fs) = Some r' /\ value r' = Some VUndefined).
Proof.
  exact (registerField_forgets_initial [("email", VStr "a@b.com")] VUndefined "email"
           emptyField [] eq_refl eq_refl (NoDup_nil _)).
Defined.

End RegistryFacts.

(** ** FieldBinding *)

(** C10.  For a stored field, the context value of [Field] carries as [error]
    the JavaScript conjunction of the record's [error] and [touched]: it is
    truthy exactly when both are, so an untouched field shows a falsy error
    whatever validation recorded, while [errorMessage] is passed on as stored. *)
Theorem contextValue_error (fields : Obj.t FormFieldType) (name : string) (intent : jsval)
    (r : FormFieldType) :
  Obj.get name fields = Some r ->
  let b := binding (contextValue fields name intent) in
  error b = Some (js_and (orUndefined (error r)) (orUndefined (touched r))) /\
  truthy (orUndefined (error b))
  = truthy (orUndefined (error r)) && truthy (orUndefined (touched r)) /\
  (truthy (orUndefined (touched r)) = false -> truthy (orUndefined (error b)) = false) /\
  errorMessage b = errorMessage r /\ value b = value r /\ touched b = touched r.
Proof.
  intros H b. subst b. unfold contextValue. rewrite H. simpl.
  assert (Ht : truthy (js_and (orUndefined (error r)) (orUndefined (touched r)))
               = truthy (orUndefined (error r)) && truthy (orUndefined (touched r))).
  { unfold js_and. destruct (truthy (orUndefined (error r))) eqn:E; simpl; auto. }
  repeat split; auto.
  intros Hu. rewrite Ht, Hu. apply andb_false_r.
Qed.

Lemma contextValue_error_witness :
  let r := mkField (Some (VBool true)) (Some (VBool false)) None (Some (VStr ""))
                   (Some (VBool true)) (Some (VStr "Required")) (Some (VBool true))
                   (Some (VBool false)) in
  let b := binding (contextValue [("email", r)] "email" VUndefined) in
  truthy (orUndefined (error b)) = false /\ errorMessage b = Some (VStr "Required").
Proof.
  destruct (contextValue_error
              [("email", mkField (Some (VBool true)) (Some (VBool false)) None
                                 (Some (VStr "")) (Some (VBool true))
                                 (Some (VStr "Required")) (Some (VBool true))
                                 (Some (VBool false)))]
              "email" VUndefined _ eq_refl) as (_ & _ & Hu & Hm & _).
  split; [apply Hu; reflexivity | exact Hm].
Defined.

(** ** ValidationEngine *)

Section ValidationFacts.
Local Open Scope list_scope.
Import ObjFacts.

(** What a pass that returns has computed and written. *)
Lemma validateForm_returns (schema : ZodSchema) (fields : Obj.t FormFieldType)
    (unregisteredErrors : Obj.t string) (touch : bool) (w w' : Effects)
    (r : FormCallbackArgs) :
  validateForm schema fields unregisteredErrors touch w = (Normal r, w') ->
  let E := erroredFieldKeysOf schema fields in
  let U := Obj.rebuild (validatedRecord E touch) fields in
  let UE := unregisteredOf E (Obj.keys fields) in
  valid r = fst (isFormValid unregisteredErrors U) /\
  errors r = option_map (fun e => Obj.spread e (messages UE))
                        (snd (isFormValid unregisteredErrors U)) /\
  pending w' = mkState U UE (st_submitting (pending w)) /\
  console w' = console w /\ handlerCalls w' = handlerCalls w.
Proof.
  unfold validateForm, erroredFieldKeysOf, validationResultOf, bind, lift, ret.
  destruct (flattenRegistered (Obj.entries fields) Obj.empty Obj.empty) as [flat|e];
    [|discriminate].
  simpl. destruct (flattenAll _ _) as [simple|e]; [|discriminate].
  intros [= <- <-]. simpl. repeat split.
Qed.

(** A pass never touches the submitting flag, the console or the handler log,
    whether it returns or throws. *)
Lemma validateForm_frame (schema : ZodSchema) (fields : Obj.t FormFieldType)
    (unregisteredErrors : Obj.t string) (touch : bool) (w : Effects) :
  let w' := snd (validateForm schema fields unregisteredErrors touch w) in
  st_submitting (pending w') = st_submitting (pending w) /\
  console w' = console w /\ handlerCalls w' = handlerCalls w.
Proof.
  unfold validateForm, bind, lift, ret.
  destruct (flattenRegistered (Obj.entries fields) Obj.empty Obj.empty) as [flat|e];
    [|simpl; auto].
  simpl. destruct (flattenAll _ _) as [simple|e]; simpl; auto.
Qed.

(** What a pass returns depends on its closure only, not on pending state. *)
Lemma validateForm_result_closed (schema : ZodSchema) (fields : Obj.t FormFieldType)
    (unregisteredErrors : Obj.t string) (touch : bool) (w1 w2 : Effects) :
  fst (validateForm schema fields unregisteredErrors touch w1)
  = fst (validateForm schema fields unregisteredErrors touch w2).
Proof.
  unfold validateForm, bind, lift, ret.
  destruct (flattenRegistered (Obj.entries fields) Obj.empty Obj.empty) as [flat|e];
    [|reflexivity].
  simpl. destruct (flattenAll _ _) as [simple|e]; reflexivity.
Qed.

Lemma fold_errorStep_nil (l : Obj.t FormFieldType) (acc : Obj.t jsval) :
  fold_left errorStep l acc = [] <->
  acc = [] /\ forall kv, In kv l -> truthy (orUndefined (error (snd kv))) = false.
Proof.
  revert acc. induction l as [|kv l IH]; simpl; intros acc.
  - split; [intros ->; split; [reflexivity | intros ? []] | tauto].
  - rewrite IH. unfold errorStep at 1.
    destruct (truthy (orUndefined (error (snd kv)))) eqn:E.
    + split.
      * intros [H _]. now apply set_not_empty in H.
      * intros [_ H]. specialize (H kv (or_introl eq_refl)). congruence.
    + split.
      * intros [-> H]. split; auto. intros kv' [<-|H']; auto.
      * intros [-> H]. split; auto.
Qed.

Lemma fieldErrors_nil (fs : Obj.t FormFieldType) :
  fieldErrors fs = [] <->
  forall kv, In kv fs -> truthy (orUndefined (error (snd kv))) = false.
Proof.
  unfold fieldErrors. change (fold_left _ (Obj.entries fs) Obj.empty)
    with (fold_left errorStep fs []).
  rewrite fold_errorStep_nil. tauto.
Qed.

Lemma isFormValid_valid (unregisteredErrors : Obj.t string) (fs : Obj.t FormFieldType) :
  fst (isFormValid unregisteredErrors fs) = true <-> fieldErrors fs = [].
Proof.
  unfold isFormValid. simpl. unfold Obj.keys. rewrite length_map.
  destruct (fieldErrors fs); simpl; split; congruence.
Qed.

Lemma error_validatedRecord (E : Obj.t string) (touch : bool) (k : string)
    (v : FormFieldType) :
  truthy (orUndefined (error (validatedRecord E touch k v))) = hasMessage E k.
Proof.
  unfold validatedRecord, hasMessage.
  destruct (erroredMessage E k); destruct touch; reflexivity.
Qed.

Lemma hasMessage_key (E : Obj.t string) (k : string) :
  hasMessage E k = true -> In k (Obj.keys E).
Proof.
  unfold hasMessage, erroredMessage. destruct (Obj.get k E) eqn:G; [|discriminate].
  intros _. apply get_Some_In in G. unfold Obj.keys. now apply (in_map fst) in G.
Qed.

Lemma includes_In (l : list string) (k : string) : includes l k = true <-> In k l.
Proof.
  unfold includes. rewrite existsb_exists. split.
  - intros (x & Hx & E). apply String.eqb_eq in E. now subst.
  - intros H. exists k. split; auto. apply String.eqb_refl.
Qed.

Lemma filter_nil {A : Type} (p : A -> bool) (l : list A) :
  filter p l = [] <-> forall x, In x l -> p x = false.
Proof.
  induction l as [|a l IH]; simpl.
  - split; auto. intros _ ? [].
  - destruct (p a) eqn:E.
    + split; [discriminate|]. intros H. specialize (H a (or_introl eq_refl)). congruence.
    + rewrite IH. split.
      * intros H x [<-|Hx]; auto.
      * intros H x Hx. apply H. now right.
Qed.

Lemma attachedErrorKeys_nil (E : Obj.t string) (fields : Obj.t FormFieldType) :
  attachedErrorKeys E fields = [] <->
  forall k, In k (Obj.keys fields) -> hasMessage E k = false.
Proof.
  unfold attachedErrorKeys, handledErrorKeys. rewrite filter_nil. split.
  - intros H k Hk. destruct (hasMessage E k) eqn:Hm; auto.
    rewrite <- Hm. apply H. apply filter_In. split.
    + now apply hasMessage_key.
    + now apply includes_In.
  - intros H k Hk. apply filter_In in Hk. destruct Hk as [_ Hk].
    apply H. now apply includes_In.
Qed.

(** The verdict of a pass, in terms of the error keys: [valid] holds exactly
    when no stored field had an error attached. *)
Lemma valid_iff_nothing_attached (E : Obj.t string) (touch : bool)
    (unregisteredErrors : Obj.t string) (fields : Obj.t FormFieldType) :
  fst (isFormValid unregisteredErrors (Obj.rebuild (validatedRecord E touch) fields)) = true
  <-> attachedErrorKeys E fields = [].
Proof.
  rewrite isFormValid_valid, fieldErrors_nil, attachedErrorKeys_nil. split.
  - intros H k Hk. apply (rebuild_keys (validatedRecord E touch)) in Hk.
    unfold Obj.keys in Hk. apply in_map_iff in Hk. destruct Hk as ([k' v'] & <- & Hin).
    specialize (H _ Hin). simpl in *.
    apply rebuild_In in Hin. destruct Hin as (v & _ & ->).
    now rewrite error_validatedRecord in H.
  - intros H [k v'] Hin. simpl. apply rebuild_In in Hin. destruct Hin as (v & Hin & ->).
    rewrite error_validatedRecord. apply H.
    unfold Obj.keys. now apply (in_map fst) in Hin.
Qed.

(** A pass over a registry without array items never throws. *)
Lemma placeValue_plain (acc : Obj.t jsval) (k : string) (v : FormFieldType) :
  includes_dot k = false ->
  placeValue acc k v = Normal (Obj.set k (orUndefined (value v)) acc).
Proof. intros H. unfold placeValue. now rewrite H. Qed.

Lemma flattenAll_plain (entries : list (string * FormFieldType)) (acc : Obj.t jsval) :
  (forall kv, In kv entries -> includes_dot (fst kv) = false) ->
  exists tree, flattenAll entries acc = Normal tree.
Proof.
  revert acc. induction entries as [|[k v] l IH]; simpl; intros acc H.
  - eauto.
  - rewrite placeValue_plain by apply (H (k, v)), or_introl, eq_refl. apply IH. auto.
Qed.

Lemma flattenRegistered_plain (entries : list (string * FormFieldType))
    (acc req : Obj.t jsval) :
  (forall kv, In kv entries -> includes_dot (fst kv) = false) ->
  exists flat, flattenRegistered entries acc req = Normal flat.
Proof.
  revert acc req. induction entries as [|[k v] l IH]; simpl; intros acc req H.
  - eauto.
  - destruct (truthy (orUndefined (_registered v))); [|apply IH; auto].
    rewrite placeValue_plain by apply (H (k, v)), or_introl, eq_refl. apply IH. auto.
Qed.

Lemma validateForm_returns_plain (schema : ZodSchema) (fields : Obj.t FormFieldType)
    (unregisteredErrors : Obj.t string) (touch : bool) (w : Effects) :
  (forall k, In k (Obj.keys fields) -> includes_dot k = false) ->
  exists r w', validateForm schema fields unregisteredErrors touch w = (Normal r, w').
Proof.
  intros H. unfold validateForm, bind, lift, ret.
  destruct (flattenRegistered_plain (Obj.entries fields) Obj.empty Obj.empty) as [flat ->].
  { intros [k v] Hin. apply H. unfold Obj.keys. now apply (in_map fst) in Hin. }
  simpl.
  match goal with
  | |- context [flattenAll ?l ?acc] =>
      destruct (flattenAll_plain l acc) as [tree ->]
  end.
  { intros [k v'] Hin. apply rebuild_In in Hin. destruct Hin as (v & Hin & _).
    apply H. unfold Obj.keys. now apply (in_map fst) in Hin. }
  eauto.
Qed.

(** C1, as the code has it.  For every validation pass that returns, [valid]
    is true exactly when no handled error was attached to a stored field,
    that is when no stored name is an error key with a non-empty message.
    The unregistered errors of the pass are written to the side table and
    merged into [errors], after the errors of the fields and the stale
    unregistered errors of the render, but they do not enter the verdict. *)
Theorem validateForm_valid (schema : ZodSchema) (fields : Obj.t FormFieldType)
    (unregisteredErrors : Obj.t string) (touch : bool) (w w' : Effects)
    (r : FormCallbackArgs) :
  validateForm schema fields unregisteredErrors touch w = (Normal r, w') ->
  let E := erroredFieldKeysOf schema fields in
  (valid r = true <-> attachedErrorKeys E fields = []) /\
  st_unregisteredErrors (pending w') = unregisteredOf E (Obj.keys fields) /\
  errors r
  = Some (Obj.spread
            (Obj.spread (fieldErrors (Obj.rebuild (validatedRecord E touch) fields))
                        (messages unregisteredErrors))
            (messages (unregisteredOf E (Obj.keys fields)))).
Proof.
  intros H E. apply validateForm_returns in H. destruct H as (Hv & He & Hp & _).
  split; [|split].
  - rewrite Hv. apply valid_iff_nothing_attached.
  - now rewrite Hp.
  - rewrite He. reflexivity.
Qed.

Lemma validateForm_valid_witness :
  exists r w',
    validateForm emailSchema (emailForm "") Obj.empty true (quiet (mounted (emailForm "")))
    = (Normal r, w') /\
    attachedErrorKeys (erroredFieldKeysOf emailSchema (emailForm "")) (emailForm "")
    = ["email"] /\
    (valid r = true <->
     attachedErrorKeys (erroredFieldKeysOf emailSchema (emailForm "")) (emailForm "") = []).
Proof.
  eexists. eexists. split; [cbv; reflexivity|]. split; [reflexivity|].
  exact (proj1 (validateForm_valid emailSchema (emailForm "") Obj.empty true
                  (quiet (mounted (emailForm ""))) _ _ eq_refl)).
Defined.

(** C1, as the specification states it, fails: the validator rejects the
    path address.street, which no stored field exposes; the pass counts no
    handled and one unregistered error, and returns [valid = true] with the
    error listed in [errors]. *)
Lemma unregistered_error_keeps_valid :
  let fs := emailForm "hidden" in
  let E := erroredFieldKeysOf emailSchema fs in
  exists r w',
    validateForm emailSchema fs Obj.empty false (quiet (mounted fs)) = (Normal r, w') /\
    List.length (handledErrorKeys E fs) + List.length (unregisteredErrorKeys E fs) = 1 /\
    valid r = true /\
    errors r = Some [("address.street", VStr "Required")].
Proof. eexists. eexists. split; [cbv; reflexivity|]. repeat split. Qed.

Lemma spread_nil_r {V : Type} (o : Obj.t V) : Obj.spread o [] = o.
Proof. reflexivity. Qed.

(** C6, on the code.  When the validator reports success, a pass that
    returns gives [valid = true], and [errors] is an object, never undefined:
    it holds the stale unregistered errors of the render the callback closed
    over, and is the empty object when there are none. *)
Theorem validateForm_success_errors (schema : ZodSchema) (fields : Obj.t FormFieldType)
    (unregisteredErrors : Obj.t string) (touch : bool) (w w' : Effects)
    (r : FormCallbackArgs) :
  validationResultOf schema fields = Normal ParseSuccess ->
  validateForm schema fields unregisteredErrors touch w = (Normal r, w') ->
  valid r = true /\
  errors r = Some (Obj.spread Obj.empty (messages unregisteredErrors)) /\
  errors r <> None.
Proof.
  intros Hs H. apply validateForm_returns in H. destruct H as (Hv & He & _).
  assert (HE : erroredFieldKeysOf schema fields = []).
  { unfold erroredFieldKeysOf. now rewrite Hs. }
  rewrite HE in Hv, He.
  assert (Hvalid : valid r = true).
  { rewrite Hv. apply valid_iff_nothing_attached. reflexivity. }
  assert (Herr : errors r = Some (Obj.spread Obj.empty (messages unregisteredErrors))).
  { rewrite He. rewrite Hv in Hvalid. apply isFormValid_valid in Hvalid.
    unfold isFormValid. simpl. rewrite Hvalid. reflexivity. }
  repeat split; auto. rewrite Herr. discriminate.
Qed.

Lemma validateForm_success_errors_witness :
  exists r w',
    validateForm emailSchema (emailForm "a@b.com") Obj.empty false
      (quiet (mounted (emailForm "a@b.com"))) = (Normal r, w') /\
    valid r = true /\ errors r = Some [] /\ errors r <> None.
Proof.
  eexists. eexists. split; [cbv; reflexivity|].
  destruct (validateForm_success_errors emailSchema (emailForm "a@b.com") Obj.empty false
              (quiet (mounted (emailForm "a@b.com"))) _ _ eq_refl eq_refl)
    as (Hv & He & Hn).
  split; [exact Hv | split; [exact He | exact Hn]].
Defined.

End ValidationFacts.

(** ** FormController: submission *)

Section SubmitFacts.
Local Open Scope list_scope.

Variable schema : ZodSchema.
Variable onSubmit : option Handler.

(** The guard of [submitForm], for a callback whose render saw the flag set:
    a warning, and nothing else. *)
Lemma submitForm_start_guarded (snapshot : FormState) (submitHandler : option Handler)
    (w : Effects) :
  st_submitting snapshot = true ->
  submitForm_start schema onSubmit snapshot submitHandler w
  = (Normal Returned,
     mkEffects (pending w)
               (console w ++ ["Cannot submit a form while is it already submitting"])
               (handlerCalls w)).
Proof. intros H. unfold submitForm_start. rewrite H. reflexivity. Qed.

(** The synchronous part of a call whose render saw the flag clear: the flag
    is raised, the handler is called once with the validation result, and
    the call waits for it. *)
Lemma submitForm_start_invokes (snapshot : FormState) (submitHandler : option Handler)
    (h : Handler) (w : Effects) (args : FormCallbackArgs) :
  st_submitting snapshot = false ->
  chosenHandler submitHandler onSubmit = Some h ->
  fst (validateForm schema (st_fields snapshot) (st_unregisteredErrors snapshot) true w)
  = Normal args ->
  let out := submitForm_start schema onSubmit snapshot submitHandler w in
  fst out = Normal (Awaiting (h args)) /\
  st_submitting (pending (snd out)) = true /\
  console (snd out) = console w /\
  handlerCalls (snd out) = handlerCalls w ++ [args].
Proof.
  intros Hs Hh Hv out. subst out. unfold submitForm_start. rewrite Hs.
  unfold bind, setSubmitting.
  match goal with
  | |- context [validateForm ?s ?f ?u ?t ?w1] =>
      pose proof (validateForm_frame s f u t w1) as Hf;
      pose proof (validateForm_result_closed s f u t w1 w) as Hc;
      destruct (validateForm s f u t w1) as [c w2]
  end.
  simpl in Hf, Hc. rewrite Hv in Hc. subst c. destruct Hf as (Hf1 & Hf2 & Hf3).
  destruct submitHandler as [h'|]; simpl in Hh;
    [|destruct onSubmit as [h'|]; [|discriminate]];
    injection Hh as ->; unfold invoke; simpl; rewrite Hf1, Hf2, Hf3; auto.
Qed.

(** C2, on the code.  When the handler of a [submitForm] call rejects, the
    call rejects with the handler's error, so the error reaches the caller,
    but [setSubmitting(false)] is never reached: the pending flag stays true. *)
Theorem submitForm_rejection_keeps_flag (snapshot : FormState)
    (submitHandler : option Handler) (h : Handler) (w : Effects)
    (args : FormCallbackArgs) (e : JsError) :
  st_submitting snapshot = false ->
  chosenHandler submitHandler onSubmit = Some h ->
  fst (validateForm schema (st_fields snapshot) (st_unregisteredErrors snapshot) true w)
  = Normal args ->
  h args = Throw e ->
  let out := submitForm schema onSubmit snapshot submitHandler w in
  fst out = Throw e /\
  st_submitting (pending (snd out)) = true /\
  handlerCalls (snd out) = handlerCalls w ++ [args].
Proof.
  intros Hs Hh Hv He out. subst out.
  destruct (submitForm_start_invokes snapshot submitHandler h w args Hs Hh Hv)
    as (H1 & H2 & _ & H4).
  unfold submitForm, bind.
  destruct (submitForm_start schema onSubmit snapshot submitHandler w) as [c w3].
  simpl in *. subst c. rewrite He. simpl. auto.
Qed.

(** The other half of the flow: a handler that fulfils lets the call clear
    the flag. *)
Lemma submitForm_fulfilment_clears_flag (snapshot : FormState)
    (submitHandler : option Handler) (h : Handler) (w : Effects)
    (args : FormCallbackArgs) :
  st_submitting snapshot = false ->
  chosenHandler submitHandler onSubmit = Some h ->
  fst (validateForm schema (st_fields snapshot) (st_unregisteredErrors snapshot) true w)
  = Normal args ->
  h args = Normal tt ->
  let out := submitForm schema onSubmit snapshot submitHandler w in
  fst out = Normal tt /\ st_submitting (pending (snd out)) = false.
Proof.
  intros Hs Hh Hv He out. subst out.
  destruct (submitForm_start_invokes snapshot submitHandler h w args Hs Hh Hv)
    as (H1 & _).
  unfold submitForm, bind.
  destruct (submitForm_start schema onSubmit snapshot submitHandler w) as [c w3].
  simpl in *. subst c. rewrite He. simpl. auto.
Qed.

Lemma submitForm_finish_frame (s : Completion Suspension) (w : Effects) :
  console (snd (submitForm_finish s w)) = console w /\
  handlerCalls (snd (submitForm_finish s w)) = handlerCalls w.
Proof. destruct s as [[|[[]|e]]|e]; simpl; auto. Qed.

Lemma submitTwice_effects (snapshot : FormState) (submitHandler : option Handler)
    (w : Effects) :
  let start := submitForm_start schema onSubmit snapshot submitHandler in
  snd (submitTwice schema onSubmit snapshot submitHandler w)
  = snd (submitForm_finish (fst (start (snd (start w))))
           (snd (submitForm_finish (fst (start w)) (snd (start (snd (start w))))))).
Proof. reflexivity. Qed.

(** C3, on the code.  Two [submitForm] calls on the callback of one render,
    the second made before the first is awaited, both pass the guard, which
    reads the [submitting] of that render: the handler is called twice with
    the same arguments and no warning is written. *)
Theorem submitForm_twice_invokes_twice (snapshot : FormState)
    (submitHandler : option Handler) (h : Handler) (w : Effects)
    (args : FormCallbackArgs) :
  st_submitting snapshot = false ->
  chosenHandler submitHandler onSubmit = Some h ->
  fst (validateForm schema (st_fields snapshot) (st_unregisteredErrors snapshot) true w)
  = Normal args ->
  let out := submitTwice schema onSubmit snapshot submitHandler w in
  handlerCalls (snd out) = handlerCalls w ++ [args; args] /\
  console (snd out) = console w.
Proof.
  intros Hs Hh Hv out. subst out. rewrite submitTwice_effects.
  destruct (submitForm_start_invokes snapshot submitHandler h w args Hs Hh Hv)
    as (_ & _ & Hc1 & Hl1).
  set (w1 := snd (submitForm_start schema onSubmit snapshot submitHandler w)) in *.
  assert (Hv1 : fst (validateForm schema (st_fields snapshot)
                       (st_unregisteredErrors snapshot) true w1) = Normal args).
  { rewrite <- Hv. apply validateForm_result_closed. }
  destruct (submitForm_start_invokes snapshot submitHandler h w1 args Hs Hh Hv1)
    as (_ & _ & Hc2 & Hl2).
  set (w2 := snd (submitForm_start schema onSubmit snapshot submitHandler w1)) in *.
  set (s1 := fst (submitForm_start schema onSubmit snapshot submitHandler w)).
  set (s2 := fst (submitForm_start schema onSubmit snapshot submitHandler w1)).
  destruct (submitForm_finish_frame s1 w2) as [Ha Hb].
  destruct (submitForm_finish_frame s2 (snd (submitForm_finish s1 w2))) as [Ha' Hb'].
  rewrite Hb', Hb, Hl2, Hl1, Ha', Ha, Hc2, Hc1, <- app_assoc. auto.
Qed.

End SubmitFacts.

Lemma submitForm_rejection_keeps_flag_witness :
  let out := submitForm emailSchema None (mounted (emailForm "a@b.com")) (Some rejecting)
               (quiet (mounted (emailForm "a@b.com"))) in
  fst out = Throw (Thrown (VStr "server unavailable")) /\
  st_submitting (pending (snd out)) = true.
Proof.
  destruct (submitForm_rejection_keeps_flag emailSchema None
              (mounted (emailForm "a@b.com")) (Some rejecting) rejecting
              (quiet (mounted (emailForm "a@b.com"))) _
              (Thrown (VStr "server unavailable")) eq_refl eq_refl eq_refl eq_refl)
    as (H1 & H2 & _).
  split; [exact H1 | exact H2].
Defined.

Lemma submitForm_twice_invokes_twice_witness :
  let out := submitTwice emailSchema (Some fulfilling) (mounted (emailForm "a@b.com")) None
               (quiet (mounted (emailForm "a@b.com"))) in
  List.length (handlerCalls (snd out)) = 2 /\ console (snd out) = [] /\
  fst out = Normal (Normal tt, Normal tt).
Proof.
  destruct (submitForm_twice_invokes_twice emailSchema (Some fulfilling)
              (mounted (emailForm "a@b.com")) None fulfilling
              (quiet (mounted (emailForm "a@b.com"))) _ eq_refl eq_refl eq_refl)
    as (H1 & H2).
  split; [|split; [exact H2 | reflexivity]].
  rewrite H1. reflexivity.
Defined.

(** ** Names of array items *)

Section ItemNames.

Lemma includes_dot_digits (d : uint) : includes_dot (NilEmpty.string_of_uint d) = false.
Proof. induction d; simpl; auto. Qed.

Lemma includes_dot_showNat (n : nat) : includes_dot (showNat n) = false.
Proof. apply includes_dot_digits. Qed.

Lemma Number_showNat (n : nat) : Number (showNat n) = Some n.
Proof.
  unfold Number, showNat. rewrite NilEmpty.usu. simpl. now rewrite Unsigned.of_to.
Qed.

Lemma showNat_inj (a b : nat) : showNat a = showNat b -> a = b.
Proof.
  intros H. apply (f_equal Number) in H. rewrite !Number_showNat in H. congruence.
Qed.

Lemma showInt_of_nat (n : nat) : showInt (Z.of_nat n) = showNat n.
Proof. destruct n; simpl; [reflexivity|]. now rewrite SuccNat2Pos.id_succ. Qed.

Lemma split_dot_plain (s : string) : includes_dot s = false -> split_dot s = [s].
Proof.
  induction s as [|c s IH]; simpl; auto.
  destruct (Ascii.eqb c dot); [discriminate|]. intros H. now rewrite IH.
Qed.

Lemma split_dot_app (name s : string) :
  includes_dot name = false ->
  split_dot (name ++ String dot s) = name :: split_dot s.
Proof.
  induction name as [|c name IH]; simpl; auto.
  destruct (Ascii.eqb c dot); [discriminate|]. intros H. now rewrite IH.
Qed.

Lemma includes_dot_app (name s : string) : includes_dot (name ++ String dot s) = true.
Proof.
  induction name as [|c name IH]; simpl.
  - reflexivity.
  - now destruct (Ascii.eqb c dot).
Qed.

Lemma startsWith_app (name s : string) : startsWith (name ++ s) name = true.
Proof.
  unfold startsWith. induction name as [|c name IH]; simpl.
  - now destruct s.
  - destruct (ascii_dec c c); [exact IH | congruence].
Qed.

Lemma append_inj (name a b : string) : (name ++ a = name ++ b)%string -> a = b.
Proof. induction name as [|c name IH]; simpl; [auto|]. intros [= H]. auto. Qed.

Lemma itemName_inj (name : string) (i j : nat) : itemName name i = itemName name j -> i = j.
Proof.
  unfold itemName, itemKey. rewrite !showInt_of_nat. intros H.
  apply append_inj in H. injection H as H. now apply showNat_inj.
Qed.

(** An item name of a dot-free group is selected by the handlers of that
    group, under the number of its index. *)
Lemma itemName_selected (name : string) (i : nat) :
  includes_dot name = false ->
  startsWith (itemName name i) name = true /\
  includes_dot (itemName name i) = true /\
  numberKey (Number (secondSegment (itemName name i))) = showNat i.
Proof.
  intros H. unfold itemName, itemKey. rewrite showInt_of_nat. repeat split.
  - apply startsWith_app.
  - apply includes_dot_app.
  - unfold secondSegment. rewrite split_dot_app by exact H.
    rewrite split_dot_plain by apply includes_dot_showNat.
    simpl. now rewrite Number_showNat.
Qed.

End ItemNames.

(** ** ArrayGroupController *)

(** C7, on the code.  With the groups tag (one item) and tags (two items)
    stored, the handler of group tag counts the items of tags as its own:
    it finds two, merges nothing onto tag.0, deletes the absent tag.1, and
    so leaves the registry as it was; the only item of tag is not removed. *)
Theorem removeHandler_counts_other_group :
  itemCount tagAndTags "tag" = 2 /\
  afterRemove tagAndTags "tag" 0 = tagAndTags /\
  Obj.get "tag.0" (afterRemove tagAndTags "tag" 0)
  = Some (storedField (VStr "a") false true true).
Proof. repeat split. Qed.

(** *** What the handler does for a group that no other name is mistaken for *)

Section RemoveFacts.
Local Open Scope list_scope.
Import ObjFacts.

Lemma In_keys_set {V : Type} (k : string) (v : V) (o : Obj.t V) (x : string) :
  In x (Obj.keys (Obj.set k v o)) <-> x = k \/ In x (Obj.keys o).
Proof.
  rewrite keys_set. destruct (in_dec string_dec k (Obj.keys o)) as [i|n].
  - split; [tauto|]. intros [->|H]; auto.
  - rewrite in_app_iff. simpl. intuition congruence.
Qed.

Lemma fold_select_keys {A V : Type} (sel : A -> bool) (kf : A -> string) (vf : A -> V)
    (l : list A) (acc : Obj.t V) (x : string) :
  In x (Obj.keys (fold_left (fun acc a => if sel a then Obj.set (kf a) (vf a) acc else acc)
                            l acc))
  <-> In x (Obj.keys acc) \/ exists a, In a l /\ sel a = true /\ x = kf a.
Proof.
  revert acc. induction l as [|a l IH]; simpl; intros acc.
  - split; [tauto|]. intros [H|(a & [] & _)]. exact H.
  - rewrite IH. destruct (sel a) eqn:E.
    + rewrite In_keys_set. split.
      * intros [[->|H]|(b & Hb & Hs & ->)]; eauto 6.
      * intros [H|(b & [<-|Hb] & Hs & ->)]; eauto 6.
    + split.
      * intros [H|(b & Hb & Hs & ->)]; eauto 6.
      * intros [H|(b & [<-|Hb] & Hs & ->)]; eauto 6. congruence.
Qed.

Lemma fold_select_NoDup {A V : Type} (sel : A -> bool) (kf : A -> string) (vf : A -> V)
    (l : list A) (acc : Obj.t V) :
  NoDup (Obj.keys acc) ->
  NoDup (Obj.keys (fold_left (fun acc a => if sel a then Obj.set (kf a) (vf a) acc else acc)
                             l acc)).
Proof.
  revert acc. induction l as [|a l IH]; simpl; intros acc H; auto.
  apply IH. destruct (sel a); auto. now apply keys_set_NoDup.
Qed.

Section Group.
Variable fs : Obj.t FormFieldType.
Variable name : string.
Variable n : nat.
Variable item : nat -> FormFieldType.

Hypothesis name_plain : includes_dot name = false.
Hypothesis dense : forall i, i < n -> Obj.get (itemName name i) fs = Some (item i).
Hypothesis only_group :
  forall k, In k (Obj.keys fs) -> startsWith k name = true -> includes_dot k = true ->
            exists i, i < n /\ k = itemName name i.

Lemma indexedMap_keys (x : string) :
  In x (Obj.keys (indexedMap fs name)) <-> In x (map showNat (seq 0 n)).
Proof.
  unfold indexedMap, Obj.entries. rewrite fold_select_keys. simpl. rewrite in_map_iff. split.
  - intros [[]|([k v] & Hin & Hsel & ->)]. simpl in *.
    apply andb_true_iff in Hsel. destruct Hsel as [Hp Hd].
    destruct (only_group k) as (i & Hi & ->); auto.
    { unfold Obj.keys. now apply (in_map fst) in Hin. }
    exists i. split.
    + symmetry. now apply itemName_selected.
    + apply in_seq. lia.
  - intros (i & <- & Hi). apply in_seq in Hi. right.
    exists (itemName name i, item i). simpl.
    destruct (itemName_selected name i name_plain) as (Hp & Hd & Hk).
    rewrite Hp, Hd, Hk. repeat split. apply get_Some_In. apply dense. lia.
Qed.

Lemma itemCount_dense : itemCount fs name = n.
Proof.
  unfold itemCount.
  assert (Hnd : NoDup (Obj.keys (indexedMap fs name))).
  { unfold indexedMap. apply fold_select_NoDup. constructor. }
  assert (Hnd' : NoDup (map showNat (seq 0 n))).
  { apply Injective_map_NoDup; [|apply seq_NoDup].
    intros a b. apply showNat_inj. }
  assert (H1 := NoDup_incl_length Hnd (fun x => proj1 (indexedMap_keys x))).
  assert (H2 := NoDup_incl_length Hnd' (fun x => proj2 (indexedMap_keys x))).
  rewrite length_map, length_seq in H1, H2. lia.
Qed.

End Group.

(** The registry after a run of [updateField] calls on distinct names. *)
Lemma updates_other {I : Type} (kf : I -> string) (g : I -> FormFieldType) (l : list I)
    (prev : Obj.t FormFieldType) (k : string) :
  (forall i, In i l -> kf i <> k) ->
  Obj.get k (fold_left (fun acc i => updateField (kf i) (g i) acc) l prev) = Obj.get k prev.
Proof.
  revert prev. induction l as [|a l IH]; simpl; intros prev H; auto.
  rewrite IH by auto. unfold updateField. apply get_set_ne. auto.
Qed.

Lemma updates_hit {I : Type} (kf : I -> string) (g : I -> FormFieldType) (l : list I)
    (prev : Obj.t FormFieldType) (i : I) :
  NoDup (map kf l) -> In i l ->
  Obj.get (kf i) (fold_left (fun acc i => updateField (kf i) (g i) acc) l prev)
  = Some (mergeField (orEmpty (Obj.get (kf i) prev)) (g i)).
Proof.
  revert prev. induction l as [|a l IH]; simpl; intros prev Hnd Hin; [contradiction|].
  inversion Hnd as [|? ? Hna Hnd']; subst.
  destruct Hin as [->|Hin].
  - rewrite updates_other.
    + unfold updateField. apply get_set_eq.
    + intros j Hj Hk. apply Hna. rewrite <- Hk. now apply in_map.
  - rewrite IH by auto. unfold updateField at 1. rewrite get_set_ne; [reflexivity|].
    intros E. apply Hna. rewrite E. now apply in_map.
Qed.

Lemma get_deleteField_eq (k : string) (o : Obj.t FormFieldType) :
  Obj.get k (deleteField k o) = None.
Proof.
  unfold deleteField. destruct (Obj.get k o) eqn:E; auto. apply get_remove_eq.
Qed.

Lemma get_deleteField_ne (k k' : string) (o : Obj.t FormFieldType) :
  k <> k' -> Obj.get k' (deleteField k o) = Obj.get k' o.
Proof.
  intros H. unfold deleteField. destruct (Obj.get k o); auto. now apply get_remove_ne.
Qed.

(** The updaters queued by a loop of [setFields] calls, composed. *)
Lemma fold_setFields {I : Type} (f : I -> Obj.t FormFieldType -> Obj.t FormFieldType)
    (l : list I) (m0 : M unit) (w : Effects) :
  fst (m0 w) = Normal tt ->
  let out := fold_left (fun (m : M unit) i => m ;;; setFields (f i))%js l m0 w in
  fst out = Normal tt /\
  st_fields (pending (snd out))
  = fold_left (fun acc i => f i acc) l (st_fields (pending (snd (m0 w)))).
Proof.
  revert m0. induction l as [|a l IH]; simpl; intros m0 H0; auto.
  specialize (IH (m0 ;;; setFields (f a))%js).
  assert (H1 : fst ((m0 ;;; setFields (f a))%js w) = Normal tt /\
               st_fields (pending (snd ((m0 ;;; setFields (f a))%js w)))
               = f a (st_fields (pending (snd (m0 w))))).
  { unfold bind. destruct (m0 w) as [c w1]. simpl in H0. subst c. simpl. auto. }
  destruct H1 as [H1 H2]. destruct (IH H1) as [H3 H4]. split; [exact H3|].
  rewrite H4, H2. reflexivity.
Qed.

Lemma loopIndices_nat (a b : nat) :
  loopIndices (Z.of_nat a) (Z.of_nat b) = map Z.of_nat (seq a (b - a)).
Proof.
  unfold loopIndices. replace (Z.to_nat (Z.of_nat b - Z.of_nat a)) with (b - a) by lia.
  assert (H : forall len s,
             map (fun j => (Z.of_nat a + Z.of_nat j)%Z) (seq s len)
             = map Z.of_nat (seq (a + s) len)).
  { induction len as [|len IH]; simpl; intros s.
    - reflexivity.
    - rewrite Nat2Z.inj_add. f_equal. rewrite IH. now rewrite Nat.add_succ_r. }
  rewrite H. now rewrite Nat.add_0_r.
Qed.

Lemma fold_left_map_ext {A B C : Type} (f : A -> B -> A) (g : C -> B) (h : A -> C -> A)
    (l : list C) (a : A) :
  (forall acc x, f acc (g x) = h acc x) ->
  fold_left f (map g l) a = fold_left h l a.
Proof.
  intros H. revert a. induction l as [|x l IH]; simpl; intros a; auto.
  now rewrite H, IH.
Qed.

(** [removeHandler] as a function on the registry. *)
Lemma afterRemove_unfold (fs : Obj.t FormFieldType) (name : string) (n idx : nat) :
  itemCount fs name = S n ->
  afterRemove fs name (Z.of_nat idx)
  = deleteField (itemName name n)
      (fold_left
         (fun acc i => updateField (itemName name i)
                         (orEmpty (Obj.get (itemName name (S i)) fs)) acc)
         (seq idx (n - idx)) fs).
Proof.
  intros Hc. unfold afterRemove, removeHandler. rewrite Hc.
  replace (Z.of_nat (S n) - 1)%Z with (Z.of_nat n) by lia.
  rewrite loopIndices_nat. unfold bind at 1.
  match goal with
  | |- context [fold_left ?step ?l (ret tt) ?w] =>
      pose proof (fold_setFields
                    (fun i => updateField (itemKey name i)
                                (orEmpty (Obj.get (itemKey name (i + 1)) fs)))
                    l (ret tt) w eq_refl) as [H1 H2];
      destruct (fold_left step l (ret tt) w) as [c w1]
  end.
  simpl in H1, H2. subst c. simpl. rewrite H2. unfold itemName. f_equal.
  apply fold_left_map_ext.
  intros acc i. now replace (Z.of_nat (S i)) with (Z.of_nat i + 1)%Z by lia.
Qed.

End RemoveFacts.

Section RemoveShift.
Local Open Scope list_scope.
Import ObjFacts.

Lemma override_Some (a b : option jsval) : b <> None -> override a b = b.
Proof. destruct b; [reflexivity | congruence]. Qed.

Lemma mergeField_complete (a b : FormFieldType) : complete b -> mergeField a b = b.
Proof.
  unfold complete. destruct b. simpl. intros (H1 & H2 & H3 & H4 & H5 & H6 & H7 & H8).
  unfold mergeField. simpl. now rewrite !override_Some by assumption.
Qed.

(** The shift of [removeHandler], for a group whose name holds no dot, whose
    items are stored under the indices below [n], and when no other stored
    name starts with the group name and holds a dot: the items before the
    index stay, every later item moves down one place, merged onto the record
    it replaces (which is a plain copy when it has all its keys), the last
    place is deleted, and no other name is touched. *)
Theorem removeHandler_shifts_down (fs : Obj.t FormFieldType) (name : string)
    (n idx : nat) (item : nat -> FormFieldType) :
  includes_dot name = false ->
  (forall i, i < n -> Obj.get (itemName name i) fs = Some (item i)) ->
  (forall k, In k (Obj.keys fs) -> startsWith k name = true -> includes_dot k = true ->
             exists i, i < n /\ k = itemName name i) ->
  idx < n ->
  let fs' := afterRemove fs name (Z.of_nat idx) in
  (forall i, i < idx -> Obj.get (itemName name i) fs' = Some (item i)) /\
  (forall i, idx <= i -> S i < n ->
     Obj.get (itemName name i) fs' = Some (mergeField (item i) (item (S i))) /\
     (complete (item (S i)) -> Obj.get (itemName name i) fs' = Some (item (S i)))) /\
  (forall i, n - 1 <= i -> Obj.get (itemName name i) fs' = None) /\
  (forall k, (forall i, i < n -> k <> itemName name i) -> Obj.get k fs' = Obj.get k fs).
Proof.
  intros Hplain Hdense Honly Hidx fs'. subst fs'.
  destruct n as [|m]; [lia|].
  rewrite (afterRemove_unfold fs name m idx)
    by (apply (itemCount_dense fs name (S m) item); assumption).
  replace (S m - 1) with m by lia.
  set (kf := fun i => itemName name i).
  set (g := fun i => orEmpty (Obj.get (itemName name (S i)) fs)).
  change (fold_left _ (seq idx (m - idx)) fs)
    with (fold_left (fun acc i => updateField (kf i) (g i) acc) (seq idx (m - idx)) fs).
  assert (Hnd : NoDup (map kf (seq idx (m - idx)))).
  { apply Injective_map_NoDup; [|apply seq_NoDup]. intros a b. apply itemName_inj. }
  assert (Habsent : forall i, S m <= i -> Obj.get (itemName name i) fs = None).
  { intros i Hi. destruct (Obj.get (itemName name i) fs) eqn:G; auto. exfalso.
    apply get_Some_In in G. apply (in_map fst) in G. simpl in G.
    destruct (itemName_selected name i Hplain) as (Hp & Hd & _).
    destruct (Honly _ G Hp Hd) as (j & Hj & E). apply itemName_inj in E. lia. }
  split; [|split; [|split]].
  - intros i Hi. rewrite get_deleteField_ne by (intros E; apply itemName_inj in E; lia).
    rewrite updates_other.
    + apply Hdense. lia.
    + intros j Hj E. apply in_seq in Hj. apply itemName_inj in E. lia.
  - intros i Hi1 Hi2.
    assert (Hget : Obj.get (itemName name i)
                     (deleteField (itemName name m)
                        (fold_left (fun acc i => updateField (kf i) (g i) acc)
                                   (seq idx (m - idx)) fs))
                   = Some (mergeField (item i) (item (S i)))).
    { rewrite get_deleteField_ne by (intros E; apply itemName_inj in E; lia).
      change (itemName name i) with (kf i). rewrite updates_hit.
      - subst kf g. simpl. rewrite !Hdense by lia. reflexivity.
      - exact Hnd.
      - apply in_seq. lia. }
    split; [exact Hget|]. intros Hc.
    pose proof (mergeField_complete (item i) (item (S i)) Hc) as Hm.
    rewrite Hm in Hget. exact Hget.
  - intros i Hi. destruct (Nat.eq_dec i m) as [->|Hne].
    + apply get_deleteField_eq.
    + rewrite get_deleteField_ne by (intros E; apply itemName_inj in E; lia).
      rewrite updates_other.
      * apply Habsent. lia.
      * intros j Hj E. apply in_seq in Hj. apply itemName_inj in E. lia.
  - intros k Hk. rewrite get_deleteField_ne.
    + apply updates_other. intros j Hj E. apply in_seq in Hj.
      apply (Hk j); [lia | now symmetry].
    + intros E. apply (Hk m); [lia | now symmetry].
Qed.

Lemma removeHandler_shifts_down_example :
  let fs' := afterRemove threeTags "tags" 0 in
  Obj.get "tags.0" fs' = Some (storedField (VStr "b") false false false) /\
  Obj.get "tags.1" fs' = Some (storedField (VStr "c") false true false) /\
  Obj.get "tags.2" fs' = None.
Proof.
  assert (Hdense : forall i, i < 3 ->
            Obj.get (itemName "tags" i) threeTags = Some (threeTagsItem i)).
  { intros [|[|[|i]]] H; try reflexivity. lia. }
  assert (Honly : forall k, In k (Obj.keys threeTags) -> startsWith k "tags" = true ->
            includes_dot k = true -> exists i, i < 3 /\ k = itemName "tags" i).
  { intros k [<-|[<-|[<-|[]]]] _ _; [exists 0|exists 1|exists 2]; split; auto; lia. }
  destruct (removeHandler_shifts_down threeTags "tags" 3 0 threeTagsItem
              eq_refl Hdense Honly ltac:(lia)) as (_ & H1 & H2 & _).
  split; [|split].
  - apply (H1 0); [lia | lia |]. repeat split; discriminate.
  - apply (H1 1); [lia | lia |]. repeat split; discriminate.
  - apply (H2 2). lia.
Defined.

End RemoveShift.

(** * Further properties of the code *)

(** ** More on dictionaries *)

Module ObjMore.
Local Open Scope list_scope.
Import ObjFacts.
Section More.
Context {V : Type}.
Implicit Types (o a b : Obj.t V) (k : string) (v : V).

Lemma keys_remove k o :
  Obj.keys (Obj.remove k o) = filter (fun x => negb (String.eqb k x)) (Obj.keys o).
Proof.
  induction o as [|[k' v'] o IH]; simpl; auto.
  destruct (String.eqb k k'); simpl; now rewrite IH.
Qed.

Lemma keys_remove_NoDup k o : NoDup (Obj.keys o) -> NoDup (Obj.keys (Obj.remove k o)).
Proof. intros H. rewrite keys_remove. now apply NoDup_filter. Qed.

Lemma In_keys_remove k o x : In x (Obj.keys (Obj.remove k o)) <-> In x (Obj.keys o) /\ x <> k.
Proof.
  rewrite keys_remove, filter_In. split; intros [H1 H2]; split; auto.
  - intros ->. now rewrite String.eqb_refl in H2.
  - apply negb_true_iff. apply String.eqb_neq. congruence.
Qed.

Lemma remove_absent k o : Obj.get k o = None -> Obj.remove k o = o.
Proof.
  induction o as [|[k' v'] o IH]; simpl; auto.
  destruct (String.eqb k k'); [discriminate|]. intros H. now rewrite IH.
Qed.

Lemma remove_appended k v o : Obj.get k o = None -> Obj.remove k (o ++ [(k, v)]) = o.
Proof.
  induction o as [|[k' v'] o IH]; simpl.
  - now rewrite String.eqb_refl.
  - destruct (String.eqb k k'); [discriminate|]. intros H. now rewrite IH.
Qed.

Lemma spread_NoDup a b : NoDup (Obj.keys a) -> NoDup (Obj.keys (Obj.spread a b)).
Proof.
  unfold Obj.spread, Obj.entries. revert a.
  induction b as [|[k v] b IH]; simpl; intros a H; auto.
  apply IH. now apply keys_set_NoDup.
Qed.


(** Reading a spread: a key of the second object wins. *)
Lemma get_spread a b k :
  NoDup (Obj.keys b) ->
  Obj.get k (Obj.spread a b) = match Obj.get k b with
                               | Some v => Some v
                               | None => Obj.get k a
                               end.
Proof.
  unfold Obj.spread, Obj.entries. revert a.
  induction b as [|[k' v'] b IH]; simpl; intros a Hnd; auto.
  inversion Hnd as [|? ? Hn Hnd']; subst. rewrite IH by exact Hnd'.
  destruct (String.eqb k k') eqn:E.
  - apply String.eqb_eq in E. subst k'.
    apply get_None_keys in Hn. rewrite Hn. apply get_set_eq.
  - apply String.eqb_neq in E. destruct (Obj.get k b); auto.
    apply get_set_ne. congruence.
Qed.

Lemma set_same k v o : Obj.get k o = Some v -> Obj.set k v o = o.
Proof.
  induction o as [|[k' v'] o IH]; simpl; [discriminate|].
  destruct (String.eqb k k') eqn:E.
  - apply String.eqb_eq in E. intros [= ->]. now subst.
  - intros H. now rewrite IH.
Qed.

Lemma In_keys_get k o : In k (Obj.keys o) <-> exists v, Obj.get k o = Some v.
Proof.
  split.
  - intros H. destruct (Obj.get k o) eqn:G; eauto.
    apply get_None_keys in G. contradiction.
  - intros [v G] . destruct (in_dec string_dec k (Obj.keys o)) as [|n]; auto.
    apply get_None_keys in n. congruence.
Qed.

Lemma keys_rebuild (f : string -> V -> V) o :
  NoDup (Obj.keys o) -> Obj.keys (Obj.rebuild f o) = Obj.keys o.
Proof.
  intros H. rewrite rebuild_fold, (fold_rebuild_map f o []) by exact H. simpl.
  unfold Obj.keys. rewrite map_map. reflexivity.
Qed.

Lemma rebuild_map (f : string -> V -> V) o :
  NoDup (Obj.keys o) ->
  Obj.rebuild f o = map (fun kv => (fst kv, f (fst kv) (snd kv))) o.
Proof. intros H. now rewrite rebuild_fold, (fold_rebuild_map f o []) by exact H. Qed.

(** Rebuilding twice is rebuilding once with the composed function. *)
Lemma set_map_values (f : string -> V -> V) k v o :
  Obj.set k (f k v) (map (fun kv => (fst kv, f (fst kv) (snd kv))) o)
  = map (fun kv => (fst kv, f (fst kv) (snd kv))) (Obj.set k v o).
Proof.
  induction o as [|[k' v'] o IH]; simpl; auto.
  destruct (String.eqb k k'); simpl; [reflexivity | now rewrite IH].
Qed.

Lemma fold_rebuild_compose (f g : string -> V -> V) l acc :
  fold_left (Obj.rebuildStep (fun k v => f k (g k v))) l
            (map (fun kv => (fst kv, f (fst kv) (snd kv))) acc)
  = map (fun kv => (fst kv, f (fst kv) (snd kv))) (fold_left (Obj.rebuildStep g) l acc).
Proof.
  revert acc. induction l as [|[k v] l IH]; simpl; intros acc; auto.
  unfold Obj.rebuildStep at 2 4. simpl. rewrite set_map_values. apply IH.
Qed.

Lemma rebuild_compose (f g : string -> V -> V) o :
  Obj.rebuild f (Obj.rebuild g o) = Obj.rebuild (fun k v => f k (g k v)) o.
Proof.
  rewrite (rebuild_map f) by apply rebuild_NoDup.
  rewrite (rebuild_fold g), <- fold_rebuild_compose. reflexivity.
Qed.

Lemma rebuild_ext (f g : string -> V -> V) o :
  (forall k v, f k v = g k v) -> Obj.rebuild f o = Obj.rebuild g o.
Proof.
  intros H. unfold Obj.rebuild, Obj.entries. generalize (@Obj.empty V).
  induction o as [|[k v] o IH]; simpl; intros acc; auto.
  unfold Obj.rebuildStep at 2 4. simpl. rewrite H. apply IH.
Qed.

End More.
End ObjMore.

(** ** The registry under all of its updaters *)

Section RegistryMore.
Local Open Scope list_scope.
Import ObjFacts ObjMore.

Lemma applyOp_NoDup (initialValues : Obj.t jsval) (initialTouched : jsval)
    (op : RegistryOp) (fs : Obj.t FormFieldType) :
  NoDup (Obj.keys fs) -> NoDup (Obj.keys (applyOp initialValues initialTouched op fs)).
Proof.
  intros H. destruct op; simpl;
    try (apply rebuild_NoDup); try (now apply keys_set_NoDup).
  - unfold registerField. now apply spread_NoDup.
  - unfold deleteField. destruct (Obj.get name fs); auto. now apply keys_remove_NoDup.
Qed.

(** Names are unique: whatever updaters ran since the form mounted, no name
    is stored twice. *)
Theorem registry_names_unique (initialValues : Obj.t jsval) (initialTouched : jsval)
    (ops : list RegistryOp) :
  NoDup (Obj.keys (runOps initialValues initialTouched ops)).
Proof.
  unfold runOps. assert (H : NoDup (Obj.keys (Obj.empty : Obj.t FormFieldType)))
    by constructor.
  revert H. generalize (Obj.empty : Obj.t FormFieldType).
  induction ops as [|op ops IH]; simpl; intros fs H; auto.
  apply IH. now apply applyOp_NoDup.
Qed.



Lemma deleteField_removes_one_aux (name : string) (fs : Obj.t FormFieldType) :
  Obj.get name (deleteField name fs) = None /\
  (forall other, other <> name -> Obj.get other (deleteField name fs) = Obj.get other fs).
Proof.
  split.
  - unfold deleteField. destruct (Obj.get name fs) eqn:E; auto. apply get_remove_eq.
  - intros other H. unfold deleteField. destruct (Obj.get name fs); auto.
    apply get_remove_ne. congruence.
Qed.

(** [deleteField] removes the entry of its name and nothing else, and changes
    nothing when the name is not stored. *)
Theorem deleteField_removes_one (name : string) (fs : Obj.t FormFieldType) :
  Obj.get name (deleteField name fs) = None /\
  (forall other, other <> name -> Obj.get other (deleteField name fs) = Obj.get other fs) /\
  (Obj.get name fs = None -> deleteField name fs = fs) /\
  (forall k, In k (Obj.keys (deleteField name fs)) <-> In k (Obj.keys fs) /\ k <> name).
Proof.
  split; [|split; [|split]].
  - unfold deleteField. destruct (Obj.get name fs) eqn:E; auto. apply get_remove_eq.
  - intros other H. unfold deleteField. destruct (Obj.get name fs); auto.
    apply get_remove_ne. congruence.
  - intros H. unfold deleteField. now rewrite H.
  - intros k. unfold deleteField. destruct (Obj.get name fs) eqn:E.
    + apply In_keys_remove.
    + split; [|tauto]. intros H. split; auto. intros ->.
      apply get_None_keys in E. contradiction.
Qed.

(** Registering a name that is not stored and deleting it again gives back
    the registry as it was, entry for entry and in the same order. *)
Theorem register_then_delete (initialValues : Obj.t jsval) (initialTouched : jsval)
    (name : string) (field : FormFieldType) (fs : Obj.t FormFieldType) :
  Obj.get name fs = None ->
  deleteField name (registerField initialValues initialTouched name field false fs) = fs.
Proof.
  intros H. rewrite registerField_scalar. rewrite set_fresh by exact H.
  unfold deleteField.
  assert (G : Obj.get name
                (fs ++ [(name,
                         freshField initialTouched (resolveInitial initialValues name)
                           (js_nullish (resolveInitial initialValues name) VUndefined)
                           (js_nullish (orUndefined (value field)) VUndefined)
                           field (includes_dot name))]) <> None).
  { rewrite <- set_fresh by exact H. rewrite get_set_eq. discriminate. }
  destruct (Obj.get name (fs ++ _)); [|congruence].
  now apply remove_appended.
Qed.

Lemma register_then_delete_witness :
  deleteField "name"
    (registerField [("name", VStr "Ada")] VUndefined "name" emptyField false
       (emailForm "a@b.com"))
  = emailForm "a@b.com".
Proof.
  exact (register_then_delete [("name", VStr "Ada")] VUndefined "name" emptyField
           (emailForm "a@b.com") eq_refl).
Defined.

(** [isFieldRegistered] through the life of a field: true after a
    registration and after [reregisterField], false after [unregisterField]
    and after [deleteField], whatever was stored before; and none of these
    calls changes the answer for another name. *)
Theorem isFieldRegistered_lifecycle (initialValues : Obj.t jsval) (initialTouched : jsval)
    (name : string) (field : FormFieldType) (fs : Obj.t FormFieldType) :
  isFieldRegistered (registerField initialValues initialTouched name field false fs) name
  = true /\
  isFieldRegistered (unregisterField name fs) name = false /\
  isFieldRegistered (reregisterField name fs) name = true /\
  isFieldRegistered (deleteField name fs) name = false /\
  (forall other, other <> name ->
     isFieldRegistered (registerField initialValues initialTouched name field false fs) other
     = isFieldRegistered fs other /\
     isFieldRegistered (unregisterField name fs) other = isFieldRegistered fs other /\
     isFieldRegistered (reregisterField name fs) other = isFieldRegistered fs other /\
     isFieldRegistered (deleteField name fs) other = isFieldRegistered fs other).
Proof.
  unfold isFieldRegistered. repeat split.
  - rewrite registerField_scalar, get_set_eq. reflexivity.
  - unfold unregisterField. rewrite get_set_eq.
    destruct (orEmpty (Obj.get name fs)); reflexivity.
  - unfold reregisterField. rewrite get_set_eq.
    destruct (orEmpty (Obj.get name fs)); reflexivity.
  - destruct (deleteField_removes_one_aux name fs) as [-> _]. reflexivity.
  - rewrite registerField_scalar, get_set_ne by congruence. reflexivity.
  - unfold unregisterField. rewrite get_set_ne by congruence. reflexivity.
  - unfold reregisterField. rewrite get_set_ne by congruence. reflexivity.
  - destruct (deleteField_removes_one_aux name fs) as [_ ->]; auto.
Qed.

End RegistryMore.

(** ** Registration *)

Section RegistrationMore.
Local Open Scope list_scope.
Import ObjFacts ObjMore.

Variable initialValues : Obj.t jsval.
Variable initialTouched : jsval.

(** Registering a stored name again replaces its record: what is stored
    afterwards is what a registration on an empty registry stores, whatever
    the record held.  A key of the caller's [field] wins over the default,
    except [_registered] and [_item], which the caller cannot set.  Other
    names are not touched. *)
Theorem registerField_replaces (name : string) (field : FormFieldType)
    (prev : Obj.t FormFieldType) :
  Obj.get name (registerField initialValues initialTouched name field false prev)
  = Obj.get name (registerField initialValues initialTouched name field false Obj.empty) /\
  (exists r,
     Obj.get name (registerField initialValues initialTouched name field false prev) = Some r /\
     _registered r = Some (VBool true) /\
     _item r = Some (VBool (includes_dot name)) /\
     value r = Some (match value field with
                     | Some v => v
                     | None => js_nullish (resolveInitial initialValues name) VUndefined
                     end) /\
     required r = Some (match required field with Some b => b | None => VBool false end) /\
     error r = Some (match error field with Some e => e | None => VBool false end) /\
     errorMessage r = Some (match errorMessage field with Some m => m | None => VNull end)) /\
  (forall other, other <> name ->
     Obj.get other (registerField initialValues initialTouched name field false prev)
     = Obj.get other prev).
Proof.
  rewrite !registerField_scalar. split; [|split].
  - now rewrite !get_set_eq.
  - eexists. rewrite get_set_eq. split; [reflexivity|].
    destruct field as [rq tc ov vl er em rg it]. simpl.
    destruct rq, vl, er, em, rg, it; repeat split.
  - intros other H. apply get_set_ne. congruence.
Qed.

Lemma fold_set_fresh {A V : Type} (kf : A -> string) (vf : A -> V) (l : list A)
    (acc : Obj.t V) :
  NoDup (Obj.keys acc ++ map kf l) ->
  fold_left (fun acc a => Obj.set (kf a) (vf a) acc) l acc
  = acc ++ map (fun a => (kf a, vf a)) l.
Proof.
  revert acc. induction l as [|a l IH]; simpl; intros acc H.
  - now rewrite app_nil_r.
  - rewrite set_fresh.
    + rewrite IH.
      * now rewrite <- app_assoc.
      * unfold Obj.keys in *. rewrite map_app. simpl. now rewrite <- app_assoc.
    + apply get_None_keys. apply NoDup_remove_2 in H. intros Hin. apply H.
      apply in_or_app. now left.
Qed.

Lemma fst_combine_seq {A : Type} (items : list A) (s : nat) :
  map fst (combine (seq s (List.length items)) items) = seq s (List.length items).
Proof.
  revert s. induction items as [|x items IH]; simpl; intros s; auto. now rewrite IH.
Qed.

Lemma itemNames_NoDup (name : string) (items : list jsval) :
  NoDup (map (fun ix : nat * jsval => itemKey name (Z.of_nat (fst ix)))
             (combine (seq 0 (List.length items)) items)).
Proof.
  rewrite <- (map_map fst (fun i => itemKey name (Z.of_nat i))).
  apply Injective_map_NoDup.
  - intros a b. apply itemName_inj.
  - rewrite fst_combine_seq. apply seq_NoDup.
Qed.

(** The entries that an array registration merges: one per element of the
    initial array, in index order. *)
Lemma arrayFieldsToMerge_entries (name : string) (field : FormFieldType)
    (items : list jsval) :
  Obj.get name initialValues = Some (VArr items) ->
  arrayFieldsToMerge initialValues initialTouched name field
  = map (fun ix => (itemName name (fst ix), arrayItemField initialTouched field (snd ix)))
        (combine (seq 0 (List.length items)) items).
Proof.
  intros H. unfold arrayFieldsToMerge. rewrite H. simpl orUndefined. cbv iota.
  rewrite (fold_set_fresh (fun ix : nat * jsval => itemKey name (Z.of_nat (fst ix)))
             (fun ix => freshField initialTouched (snd ix) (snd ix) (snd ix) field true)).
  - reflexivity.
  - simpl. apply itemNames_NoDup.
Qed.

Lemma get_item_entries (name : string) (g : jsval -> FormFieldType) (items : list jsval)
    (s i : nat) :
  i < List.length items ->
  Obj.get (itemName name (s + i))
    (map (fun ix => (itemName name (fst ix), g (snd ix)))
         (combine (seq s (List.length items)) items))
  = Some (g (nth i items VUndefined)).
Proof.
  revert s i. induction items as [|x items IH]; simpl; intros s i Hi; [lia|].
  destruct i as [|i].
  - rewrite Nat.add_0_r, String.eqb_refl. reflexivity.
  - destruct (String.eqb (itemName name (s + S i)) (itemName name s)) eqn:E.
    + apply String.eqb_eq in E. apply itemName_inj in E. lia.
    + replace (s + S i) with (S s + i) by lia. apply IH. lia.
Qed.

Lemma keys_item_entries (name : string) (g : jsval -> FormFieldType) (items : list jsval)
    (s : nat) (k : string) :
  In k (Obj.keys (map (fun ix => (itemName name (fst ix), g (snd ix)))
                      (combine (seq s (List.length items)) items))) ->
  exists i, i < List.length items /\ k = itemName name (s + i).
Proof.
  revert s. induction items as [|x items IH]; simpl; intros s; [tauto|].
  intros [<-|H].
  - exists 0. split; [lia | now rewrite Nat.add_0_r].
  - destruct (IH _ H) as (i & Hi & ->). exists (S i). split; [lia|].
    now replace (s + S i) with (S s + i) by lia.
Qed.

(** Registering an array group stores one record per element of the initial
    array under [name.0], [name.1], ...: registered, marked as item, and,
    when the caller's [field] carries neither [value] nor [originalValue],
    holding the element as both.  No other name is touched. *)
Theorem registerField_array (name : string) (field : FormFieldType)
    (items : list jsval) (prev : Obj.t FormFieldType) :
  Obj.get name initialValues = Some (VArr items) ->
  let fs := registerField initialValues initialTouched name field true prev in
  (forall i, i < List.length items ->
     exists r, Obj.get (itemName name i) fs = Some r /\
       _registered r = Some (VBool true) /\ _item r = Some (VBool true) /\
       (value field = None -> value r = Some (nth i items VUndefined)) /\
       (originalValue field = None -> originalValue r = Some (nth i items VUndefined))) /\
  (forall k, (forall i, i < List.length items -> k <> itemName name i) ->
     Obj.get k fs = Obj.get k prev).
Proof.
  intros H fs. subst fs. unfold registerField.
  rewrite (arrayFieldsToMerge_entries name field items H).
  assert (Hnd : NoDup (Obj.keys
                  (map (fun ix : nat * jsval =>
                          (itemName name (fst ix), arrayItemField initialTouched field (snd ix)))
                       (combine (seq 0 (List.length items)) items)))).
  { unfold Obj.keys. rewrite map_map. simpl. apply itemNames_NoDup. }
  split.
  - intros i Hi. rewrite get_spread by exact Hnd.
    pose proof (get_item_entries name (arrayItemField initialTouched field) items 0 i Hi)
      as G.
    change (0 + i) with i in G. rewrite G.
    eexists. split; [reflexivity|].
    unfold arrayItemField, freshField, mergeField. simpl.
    repeat split.
    + intros ->. reflexivity.
    + intros ->. reflexivity.
  - intros k Hk. rewrite get_spread by exact Hnd.
    destruct (Obj.get k _) eqn:G at 1; [|reflexivity].
    exfalso. assert (Hin : In k (Obj.keys
                  (map (fun ix : nat * jsval =>
                          (itemName name (fst ix), arrayItemField initialTouched field (snd ix)))
                       (combine (seq 0 (List.length items)) items)))).
    { apply In_keys_get. eauto. }
    apply keys_item_entries in Hin. destruct Hin as (i & Hi & ->). now apply (Hk i).
Qed.

(** When the initial value of the name is not an array (or is missing), an
    array registration leaves the registry as it is. *)
Theorem registerField_array_nothing (name : string) (field : FormFieldType)
    (prev : Obj.t FormFieldType) :
  (forall items, Obj.get name initialValues <> Some (VArr items)) ->
  registerField initialValues initialTouched name field true prev = prev.
Proof.
  intros H. unfold registerField, arrayFieldsToMerge.
  destruct (Obj.get name initialValues) as [[| | | | |items|]|]; simpl; try reflexivity.
  now destruct (H items).
Qed.

End RegistrationMore.

Lemma registerField_array_witness :
  exists r,
    Obj.get "tags.1"
      (registerField [("tags", VArr [VStr "a"; VStr "b"])] VUndefined "tags" emptyField true [])
    = Some r /\
    value r = Some (VStr "b") /\ originalValue r = Some (VStr "b").
Proof.
  destruct (registerField_array [("tags", VArr [VStr "a"; VStr "b"])] VUndefined "tags"
              emptyField [VStr "a"; VStr "b"] [] eq_refl) as [H _].
  destruct (H 1 ltac:(simpl; lia)) as (r & Hr & _ & _ & Hv & Ho).
  exists r. split; [exact Hr|]. split; [apply Hv | apply Ho]; reflexivity.
Defined.

Lemma registerField_array_nothing_witness :
  registerField [("tags", VStr "a,b")] VUndefined "tags" emptyField true (emailForm "x")
  = emailForm "x".
Proof.
  apply registerField_array_nothing. intros items. discriminate.
Defined.

(** ** Touch, clear and reset *)

Section FormWideMore.
Local Open Scope list_scope.
Import ObjFacts ObjMore.

Lemma resetRecord_clearRecord (v : FormFieldType) : resetRecord (clearRecord v) = resetRecord v.
Proof. destruct v as [? ? [ov|] ? ? ? ? ?]; reflexivity. Qed.

Lemma clearRecord_resetRecord (v : FormFieldType) : clearRecord (resetRecord v) = clearRecord v.
Proof. destruct v as [? ? [ov|] ? ? ? ? ?]; reflexivity. Qed.

Lemma resetRecord_touchRecord (v : FormFieldType) : resetRecord (touchRecord v) = resetRecord v.
Proof. destruct v as [? ? [ov|] ? ? ? ? ?]; reflexivity. Qed.

Lemma clearRecord_idempotent (v : FormFieldType) : clearRecord (clearRecord v) = clearRecord v.
Proof. destruct v; reflexivity. Qed.

Lemma touchRecord_idempotent (v : FormFieldType) : touchRecord (touchRecord v) = touchRecord v.
Proof. destruct v; reflexivity. Qed.

(** [clearForm] keeps what [resetForm] needs: a reset after a clear is the
    reset of the registry before the clear.  Likewise a clear after a reset
    is a clear, a reset after [touchForm] is a reset, and [clearForm] is
    idempotent. *)
Theorem reset_after_clear (fs : Obj.t FormFieldType) :
  resetForm (clearForm fs) = resetForm fs /\
  clearForm (resetForm fs) = clearForm fs /\
  resetForm (touchForm fs) = resetForm fs /\
  clearForm (clearForm fs) = clearForm fs.
Proof.
  unfold resetForm, clearForm, touchForm. rewrite !rebuild_compose.
  split; [|split; [|split]]; apply rebuild_ext; intros k v.
  - apply resetRecord_clearRecord.
  - apply clearRecord_resetRecord.
  - apply resetRecord_touchRecord.
  - apply clearRecord_idempotent.
Qed.

(** [touchForm] marks every stored field as touched, registered or not, and
    changes nothing else: values, errors and messages stay; it is idempotent
    and keeps the stored names. *)
Theorem touchForm_touches_all (fs : Obj.t FormFieldType) (k : string) (v : FormFieldType) :
  NoDup (Obj.keys fs) -> Obj.get k fs = Some v ->
  (exists v', Obj.get k (touchForm fs) = Some v' /\
     touched v' = Some (VBool true) /\
     value v' = value v /\ originalValue v' = originalValue v /\
     error v' = error v /\ errorMessage v' = errorMessage v /\
     required v' = required v /\ _registered v' = _registered v /\ _item v' = _item v) /\
  touchForm (touchForm fs) = touchForm fs /\
  Obj.keys (touchForm fs) = Obj.keys fs.
Proof.
  intros Hnd H. split; [|split].
  - unfold touchForm. rewrite get_rebuild by exact Hnd. rewrite H. simpl.
    eexists. split; [reflexivity|]. destruct v; repeat split.
  - unfold touchForm. apply rebuild_idempotent. intros _ x. apply touchRecord_idempotent.
  - unfold touchForm. now apply keys_rebuild.
Qed.

Lemma touchForm_touches_all_witness :
  exists v', Obj.get "email" (touchForm (emailForm "a@b.com")) = Some v' /\
             touched v' = Some (VBool true) /\ value v' = Some (VStr "a@b.com").
Proof.
  destruct (touchForm_touches_all (emailForm "a@b.com") "email" _
              ltac:(repeat constructor; simpl; tauto) eq_refl)
    as ((v' & H & Ht & Hv & _) & _).
  exists v'. split; [exact H|]. split; [exact Ht | exact Hv].
Defined.

(** What [clearForm] leaves in a stored field: an undefined value, not
    touched, no error, and the [originalValue] it had. *)
Theorem clearForm_clears (fs : Obj.t FormFieldType) (k : string) (v : FormFieldType) :
  NoDup (Obj.keys fs) -> Obj.get k fs = Some v ->
  exists v', Obj.get k (clearForm fs) = Some v' /\
    value v' = Some VUndefined /\ touched v' = Some (VBool false) /\
    error v' = Some (VBool false) /\ errorMessage v' = Some VNull /\
    originalValue v' = originalValue v /\
    required v' = required v /\ _registered v' = _registered v /\ _item v' = _item v.
Proof.
  intros Hnd H. unfold clearForm. rewrite get_rebuild by exact Hnd. rewrite H. simpl.
  eexists. split; [reflexivity|]. destruct v; repeat split.
Qed.

Lemma clearForm_clears_witness :
  exists v', Obj.get "email" (clearForm (emailForm "a@b.com")) = Some v' /\
             value v' = Some VUndefined /\ originalValue v' = Some (VStr "a@b.com").
Proof.
  destruct (clearForm_clears (emailForm "a@b.com") "email" _
              ltac:(repeat constructor; simpl; tauto) eq_refl)
    as (v' & H & Hv & _ & _ & _ & Ho & _).
  exists v'. split; [exact H|]. split; [exact Hv | exact Ho].
Defined.

Lemma registerField_array_get (initialValues : Obj.t jsval) (initialTouched : jsval)
    (name : string) (field : FormFieldType) (items : list jsval)
    (prev : Obj.t FormFieldType) (i : nat) :
  Obj.get name initialValues = Some (VArr items) -> i < List.length items ->
  Obj.get (itemName name i) (registerField initialValues initialTouched name field true prev)
  = Some (arrayItemField initialTouched field (nth i items VUndefined)).
Proof.
  intros H Hi. unfold registerField.
  rewrite (arrayFieldsToMerge_entries initialValues initialTouched name field items H).
  rewrite get_spread.
  - pose proof (get_item_entries name (arrayItemField initialTouched field) items 0 i Hi)
      as G.
    change (0 + i) with i in G. now rewrite G.
  - unfold Obj.keys. rewrite map_map. simpl. apply itemNames_NoDup.
Qed.

(** An item of an array group comes back on reset.  After the group is
    registered from the initial array, whatever value an item is given
    later, [resetForm] sets it to the initial element again (undefined for a
    null element) and marks it touched exactly when that element is truthy. *)
Theorem reset_restores_array_item (initialValues : Obj.t jsval) (initialTouched : jsval)
    (name : string) (field : FormFieldType) (items : list jsval)
    (prev : Obj.t FormFieldType) (i : nat) (edited : jsval) :
  Obj.get name initialValues = Some (VArr items) -> i < List.length items ->
  value field = None -> originalValue field = None -> NoDup (Obj.keys prev) ->
  let fs := registerField initialValues initialTouched name field true prev in
  exists r,
    Obj.get (itemName name i) (resetForm (setValue (itemName name i) edited fs)) = Some r /\
    value r = Some (js_nullish (nth i items VUndefined) VUndefined) /\
    touched r = Some (VBool (truthy (nth i items VUndefined))) /\
    error r = Some (VBool false).
Proof.
  intros H Hi Hv Ho Hnd fs.
  assert (G := registerField_array_get initialValues initialTouched name field items
                 prev i H Hi). fold fs in G.
  assert (Hfs : NoDup (Obj.keys fs)).
  { subst fs. unfold registerField. now apply spread_NoDup. }
  unfold resetForm, setValue, updateField.
  rewrite get_rebuild by now apply keys_set_NoDup.
  rewrite get_set_eq, G. simpl.
  eexists. split; [reflexivity|].
  unfold arrayItemField, freshField, resetRecord, mergeField. simpl.
  rewrite Ho. simpl. repeat split.
Qed.

Lemma reset_restores_array_item_witness :
  exists r,
    Obj.get "tags.1"
      (resetForm (setValue "tags.1" (VStr "edited")
         (registerField [("tags", VArr [VStr "a"; VStr "b"])] VUndefined "tags"
            emptyField true []))) = Some r /\
    value r = Some (VStr "b").
Proof.
  destruct (reset_restores_array_item [("tags", VArr [VStr "a"; VStr "b"])] VUndefined
              "tags" emptyField [VStr "a"; VStr "b"] [] 1 (VStr "edited")
              eq_refl ltac:(simpl; lia) eq_refl eq_refl (NoDup_nil _))
    as (r & H & Hv & _).
  exists r. split; [exact H | exact Hv].
Defined.

End FormWideMore.

(** ** More on the validation pass *)

Section ValidationMore.
Local Open Scope list_scope.
Import ObjFacts ObjMore.

(** Everything a pass that returns has computed, the value tree included. *)
Lemma validateForm_returns_tree (schema : ZodSchema) (stored : Obj.t FormFieldType)
    (unregisteredErrors : Obj.t string) (touch : bool) (w w' : Effects)
    (r : FormCallbackArgs) :
  validateForm schema stored unregisteredErrors touch w = (Normal r, w') ->
  flattenAll (Obj.entries (validatedFields schema touch stored)) Obj.empty
  = Normal (fields r) /\
  st_fields (pending w') = validatedFields schema touch stored /\
  st_unregisteredErrors (pending w')
  = unregisteredOf (erroredFieldKeysOf schema stored) (Obj.keys stored) /\
  valid r = fst (isFormValid unregisteredErrors (validatedFields schema touch stored)).
Proof.
  unfold validateForm, validatedFields, erroredFieldKeysOf, validationResultOf,
    bind, lift, ret.
  destruct (flattenRegistered (Obj.entries stored) Obj.empty Obj.empty) as [flat|e];
    [|discriminate].
  simpl. destruct (flattenAll _ _) as [simple|e]; [|discriminate].
  intros [= <- <-]. simpl. repeat split.
Qed.

(** A pass returns as soon as both of its flattenings do. *)
Lemma validateForm_normal (schema : ZodSchema) (stored : Obj.t FormFieldType)
    (unregisteredErrors : Obj.t string) (touch : bool) (w : Effects)
    (res : SafeParseResult) (tree : Obj.t jsval) :
  validationResultOf schema stored = Normal res ->
  flattenAll (Obj.entries (validatedFields schema touch stored)) Obj.empty = Normal tree ->
  exists r w', validateForm schema stored unregisteredErrors touch w = (Normal r, w') /\
               fields r = tree.
Proof.
  unfold validateForm, validatedFields, erroredFieldKeysOf, validationResultOf,
    bind, lift, ret.
  destruct (flattenRegistered (Obj.entries stored) Obj.empty Obj.empty) as [flat|e];
    [|discriminate].
  intros _. simpl. intros ->. eexists. eexists. split; reflexivity.
Qed.

Lemma validatedRecord_keeps (E : Obj.t string) (touch : bool) (k : string)
    (v : FormFieldType) :
  value (validatedRecord E touch k v) = value v /\
  originalValue (validatedRecord E touch k v) = originalValue v /\
  required (validatedRecord E touch k v) = required v /\
  _registered (validatedRecord E touch k v) = _registered v /\
  _item (validatedRecord E touch k v) = _item v /\
  touched (validatedRecord E touch k v) = (if touch then Some (VBool true) else touched v).
Proof.
  unfold validatedRecord. destruct (erroredMessage E k), touch, v; repeat split.
Qed.

Lemma validatedRecord_error (E : Obj.t string) (touch : bool) (k : string)
    (v : FormFieldType) :
  match erroredMessage E k with
  | Some msg => error (validatedRecord E touch k v) = Some (VBool true) /\
                errorMessage (validatedRecord E touch k v) = Some (VStr msg)
  | None => error (validatedRecord E touch k v) = Some (VBool false) /\
            errorMessage (validatedRecord E touch k v) = Some VNull
  end.
Proof.
  unfold validatedRecord. destruct (erroredMessage E k), touch, v; split; reflexivity.
Qed.

Lemma validatedRecord_idempotent (E : Obj.t string) (touch : bool) (k : string)
    (v : FormFieldType) :
  validatedRecord E touch k (validatedRecord E touch k v) = validatedRecord E touch k v.
Proof.
  unfold validatedRecord. destruct (erroredMessage E k), touch, v; reflexivity.
Qed.

(** A validation pass keeps the data of every stored field: value,
    [originalValue], [required], [_registered] and [_item] are written back
    as they were.  [touched] is kept too, unless the pass is asked to touch,
    and then it becomes true for every stored field, registered or not. *)
Theorem validateForm_keeps_data (schema : ZodSchema) (fields : Obj.t FormFieldType)
    (unregisteredErrors : Obj.t string) (touch : bool) (w w' : Effects)
    (r : FormCallbackArgs) (k : string) (v : FormFieldType) :
  validateForm schema fields unregisteredErrors touch w = (Normal r, w') ->
  NoDup (Obj.keys fields) -> Obj.get k fields = Some v ->
  exists v', Obj.get k (st_fields (pending w')) = Some v' /\
    value v' = value v /\ originalValue v' = originalValue v /\
    required v' = required v /\ _registered v' = _registered v /\ _item v' = _item v /\
    touched v' = (if touch then Some (VBool true) else touched v).
Proof.
  intros H Hnd Hk. apply validateForm_returns_tree in H. destruct H as (_ & -> & _).
  unfold validatedFields. rewrite get_rebuild by exact Hnd. rewrite Hk. simpl.
  eexists. split; [reflexivity|]. apply validatedRecord_keeps.
Qed.

Lemma validateForm_keeps_data_witness :
  exists r w' v',
    validateForm emailSchema (emailForm "") Obj.empty true (quiet (mounted (emailForm "")))
    = (Normal r, w') /\
    Obj.get "email" (st_fields (pending w')) = Some v' /\
    value v' = Some (VStr "") /\ touched v' = Some (VBool true).
Proof.
  eexists. eexists.
  assert (H : validateForm emailSchema (emailForm "") Obj.empty true
                (quiet (mounted (emailForm ""))) = (Normal _, _)) by (cbv; reflexivity).
  destruct (validateForm_keeps_data _ _ _ _ _ _ _ "email" _ H
              ltac:(repeat constructor; simpl; tauto) eq_refl)
    as (v' & G & Hv & _ & _ & _ & _ & Ht).
  exists v'. split; [exact H|]. split; [exact G|]. split; [exact Hv | exact Ht].
Defined.

(** A validation pass rewrites the error of every stored field: a field whose
    name is an error key with a non-empty message gets [error = true] and
    that message; every other stored field gets [error = false] and a null
    message, whatever it carried before. *)
Theorem validateForm_writes_errors (schema : ZodSchema) (fields : Obj.t FormFieldType)
    (unregisteredErrors : Obj.t string) (touch : bool) (w w' : Effects)
    (r : FormCallbackArgs) (k : string) (v : FormFieldType) :
  validateForm schema fields unregisteredErrors touch w = (Normal r, w') ->
  NoDup (Obj.keys fields) -> Obj.get k fields = Some v ->
  exists v', Obj.get k (st_fields (pending w')) = Some v' /\
    match erroredMessage (erroredFieldKeysOf schema fields) k with
    | Some msg => error v' = Some (VBool true) /\ errorMessage v' = Some (VStr msg)
    | None => error v' = Some (VBool false) /\ errorMessage v' = Some VNull
    end.
Proof.
  intros H Hnd Hk. apply validateForm_returns_tree in H. destruct H as (_ & -> & _).
  unfold validatedFields. rewrite get_rebuild by exact Hnd. rewrite Hk. simpl.
  eexists. split; [reflexivity|]. apply validatedRecord_error.
Qed.

Lemma validateForm_writes_errors_witness :
  exists r w' v',
    validateForm emailSchema (emailForm "") Obj.empty false (quiet (mounted (emailForm "")))
    = (Normal r, w') /\
    Obj.get "email" (st_fields (pending w')) = Some v' /\
    error v' = Some (VBool true) /\ errorMessage v' = Some (VStr "Required").
Proof.
  eexists. eexists.
  assert (H : validateForm emailSchema (emailForm "") Obj.empty false
                (quiet (mounted (emailForm ""))) = (Normal _, _)) by (cbv; reflexivity).
  destruct (validateForm_writes_errors _ _ _ _ _ _ _ "email" _ H
              ltac:(repeat constructor; simpl; tauto) eq_refl)
    as (v' & G & He).
  exists v'. split; [exact H|]. split; [exact G|]. exact He.
Defined.

Lemma flattenRegistered_filter (l : list (string * FormFieldType)) (acc req : Obj.t jsval) :
  flattenRegistered (registeredOnly l) acc req = flattenRegistered l acc req.
Proof.
  revert acc req. induction l as [|[k v] l IH]; simpl; intros acc req; auto.
  destruct (truthy (orUndefined (_registered v))) eqn:E; simpl; [|apply IH].
  rewrite E. destruct (placeValue acc k v); auto.
Qed.

(** The validator never sees an unregistered field: its answer, and so the
    error keys of the pass, are those of the registry with the unregistered
    entries left out. *)
Theorem unregistered_fields_not_validated (schema : ZodSchema)
    (fields : Obj.t FormFieldType) :
  validationResultOf schema fields = validationResultOf schema (registeredOnly fields) /\
  erroredFieldKeysOf schema fields = erroredFieldKeysOf schema (registeredOnly fields).
Proof.
  assert (H : validationResultOf schema fields
              = validationResultOf schema (registeredOnly fields)).
  { unfold validationResultOf, Obj.entries. now rewrite flattenRegistered_filter. }
  split; [exact H|]. unfold erroredFieldKeysOf. now rewrite H.
Qed.

Lemma fold_issues_get (k : string) (issues : list ZodIssue) (acc : Obj.t string) :
  Obj.get k (fold_left (fun acc issue => Obj.set (joinPath (path issue)) (message issue) acc)
                       issues acc)
  = match lastMessage k issues with
    | Some m => Some m
    | None => Obj.get k acc
    end.
Proof.
  revert acc. induction issues as [|i issues IH]; simpl; intros acc; auto.
  rewrite IH. destruct (lastMessage k issues); auto.
  destruct (String.eqb k (joinPath (path i))) eqn:E.
  - apply String.eqb_eq in E. subst k. apply get_set_eq.
  - apply String.eqb_neq in E. apply get_set_ne. congruence.
Qed.

(** When the validator reports several issues for one path, the message of
    the last one is kept for that key. *)
Theorem last_issue_wins (issues : list ZodIssue) (k : string) :
  Obj.get k (collectIssues (ParseFailure issues)) = lastMessage k issues.
Proof.
  unfold collectIssues. rewrite fold_issues_get. now destruct (lastMessage k issues).
Qed.

Lemma collectIssues_NoDup (res : SafeParseResult) : NoDup (Obj.keys (collectIssues res)).
Proof.
  destruct res as [|issues]; simpl; [constructor|].
  assert (H : NoDup (Obj.keys (Obj.empty : Obj.t string))) by constructor.
  revert H. generalize (Obj.empty : Obj.t string).
  induction issues as [|i issues IH]; simpl; intros acc H; auto.
  apply IH. now apply keys_set_NoDup.
Qed.

Lemma erroredFieldKeysOf_NoDup (schema : ZodSchema) (fields : Obj.t FormFieldType) :
  NoDup (Obj.keys (erroredFieldKeysOf schema fields)).
Proof.
  unfold erroredFieldKeysOf. destruct (validationResultOf schema fields).
  - apply collectIssues_NoDup.
  - constructor.
Qed.

Lemma get_unregisteredOf (E : Obj.t string) (handled : list string) (k : string) :
  NoDup (Obj.keys E) ->
  Obj.get k (unregisteredOf E handled)
  = if includes handled k then None else Obj.get k E.
Proof.
  unfold unregisteredOf, Obj.entries.
  assert (G : forall l acc,
            NoDup (Obj.keys l) ->
            Obj.get k (fold_left
                         (fun acc kv => if includes handled (fst kv) then acc
                                        else Obj.set (fst kv) (snd kv) acc) l acc)
            = match (if includes handled k then @None string else Obj.get k l) with
              | Some m => Some m
              | None => Obj.get k acc
              end).
  { induction l as [|[k' m'] l IH]; simpl; intros acc Hnd.
    - now destruct (includes handled k).
    - inversion Hnd as [|? ? Hn Hnd']; subst. rewrite IH by exact Hnd'.
      destruct (includes handled k) eqn:Hk.
      + destruct (includes handled k') eqn:Hk'; auto.
        apply get_set_ne. intros ->. congruence.
      + destruct (String.eqb k k') eqn:Ek.
        * apply String.eqb_eq in Ek. subst k'. rewrite Hk.
          apply get_None_keys in Hn. rewrite Hn. apply get_set_eq.
        * apply String.eqb_neq in Ek. destruct (Obj.get k l); auto.
          destruct (includes handled k'); auto. apply get_set_ne. congruence. }
  intros Hnd. rewrite G by exact Hnd. simpl.
  destruct (includes handled k); auto. now destruct (Obj.get k E).
Qed.

(** The side table of unregistered errors that a pass writes holds exactly
    the error keys that name no stored field, each with its message: a key
    of a stored field, registered or not, never enters it. *)
Theorem unregistered_errors_table (schema : ZodSchema) (fields : Obj.t FormFieldType)
    (unregisteredErrors : Obj.t string) (touch : bool) (w w' : Effects)
    (r : FormCallbackArgs) (k : string) :
  validateForm schema fields unregisteredErrors touch w = (Normal r, w') ->
  Obj.get k (st_unregisteredErrors (pending w'))
  = if includes (Obj.keys fields) k then None
    else Obj.get k (erroredFieldKeysOf schema fields).
Proof.
  intros H. apply validateForm_returns_tree in H. destruct H as (_ & _ & -> & _).
  apply get_unregisteredOf. apply erroredFieldKeysOf_NoDup.
Qed.

Lemma unregistered_errors_table_witness :
  exists r w',
    validateForm emailSchema (emailForm "hidden") Obj.empty false
      (quiet (mounted (emailForm "hidden"))) = (Normal r, w') /\
    Obj.get "address.street" (st_unregisteredErrors (pending w')) = Some "Required" /\
    Obj.get "email" (st_unregisteredErrors (pending w')) = None.
Proof.
  eexists. eexists.
  assert (H : validateForm emailSchema (emailForm "hidden") Obj.empty false
                (quiet (mounted (emailForm "hidden"))) = (Normal _, _))
    by (cbv; reflexivity).
  split; [exact H|]. split.
  - exact (unregistered_errors_table _ _ _ _ _ _ _ "address.street" H).
  - exact (unregistered_errors_table _ _ _ _ _ _ _ "email" H).
Defined.

End ValidationMore.

(** ** The value tree *)

Section TreeMore.
Local Open Scope list_scope.
Import ObjFacts ObjMore.

Lemma placeValue_validated (E : Obj.t string) (touch : bool) (acc : Obj.t jsval)
    (k : string) (v : FormFieldType) :
  placeValue acc k (validatedRecord E touch k v) = placeValue acc k v.
Proof.
  unfold placeValue. destruct (validatedRecord_keeps E touch k v) as (-> & _). reflexivity.
Qed.

Lemma flattenAll_validated (E : Obj.t string) (touch : bool)
    (l : list (string * FormFieldType)) (acc : Obj.t jsval) :
  flattenAll (map (fun kv => (fst kv, validatedRecord E touch (fst kv) (snd kv))) l) acc
  = flattenAll l acc.
Proof.
  revert acc. induction l as [|[k v] l IH]; simpl; intros acc; auto.
  rewrite placeValue_validated. destruct (placeValue acc k v); auto.
Qed.

Lemma flattenRegistered_validated (E : Obj.t string) (touch : bool)
    (l : list (string * FormFieldType)) (acc req : Obj.t jsval) :
  flattenRegistered (map (fun kv => (fst kv, validatedRecord E touch (fst kv) (snd kv))) l)
                    acc req
  = flattenRegistered l acc req.
Proof.
  revert acc req. induction l as [|[k v] l IH]; simpl; intros acc req; auto.
  destruct (validatedRecord_keeps E touch k v) as (_ & _ & Hr & Hg & _).
  rewrite Hr, Hg, placeValue_validated.
  destruct (truthy (orUndefined (_registered v))); auto.
  destruct (placeValue acc k v); auto.
Qed.

Lemma validatedFields_map (schema : ZodSchema) (touch : bool) (fs : Obj.t FormFieldType) :
  NoDup (Obj.keys fs) ->
  validatedFields schema touch fs
  = map (fun kv => (fst kv,
                    validatedRecord (erroredFieldKeysOf schema fs) touch (fst kv) (snd kv)))
        fs.
Proof. intros H. unfold validatedFields. now apply rebuild_map. Qed.

Lemma validationResultOf_validated (schema : ZodSchema) (touch : bool)
    (fs : Obj.t FormFieldType) :
  NoDup (Obj.keys fs) ->
  validationResultOf schema (validatedFields schema touch fs) = validationResultOf schema fs.
Proof.
  intros H. rewrite validatedFields_map by exact H.
  unfold validationResultOf, Obj.entries. now rewrite flattenRegistered_validated.
Qed.

Lemma validateForm_returns_result (schema : ZodSchema) (fields : Obj.t FormFieldType)
    (unregisteredErrors : Obj.t string) (touch : bool) (w w' : Effects)
    (r : FormCallbackArgs) :
  validateForm schema fields unregisteredErrors touch w = (Normal r, w') ->
  exists res, validationResultOf schema fields = Normal res.
Proof.
  unfold validateForm, validationResultOf, bind, lift.
  destruct (flattenRegistered (Obj.entries fields) Obj.empty Obj.empty) as [flat|e];
    [eauto | discriminate].
Qed.

(** Validating again changes nothing.  A second pass, run on the registry
    that a first pass wrote, returns too, with the same verdict and the same
    value tree, and writes the same registry and the same side table. *)
Theorem validateForm_twice (schema : ZodSchema) (stored : Obj.t FormFieldType)
    (unregisteredErrors unregisteredErrors' : Obj.t string) (touch : bool)
    (w w' : Effects) (r : FormCallbackArgs) :
  validateForm schema stored unregisteredErrors touch w = (Normal r, w') ->
  NoDup (Obj.keys stored) ->
  exists r2 w'',
    validateForm schema (st_fields (pending w')) unregisteredErrors' touch w'
    = (Normal r2, w'') /\
    st_fields (pending w'') = st_fields (pending w') /\
    st_unregisteredErrors (pending w'') = st_unregisteredErrors (pending w') /\
    valid r2 = valid r /\
    fields r2 = fields r.
Proof.
  intros H Hnd. destruct (validateForm_returns_result _ _ _ _ _ _ _ H) as [res0 Hres0].
  apply validateForm_returns_tree in H.
  destruct H as (Htree & Hf & Hu & Hv).
  set (U := validatedFields schema touch stored) in *.
  assert (HR : validationResultOf schema U = validationResultOf schema stored)
    by now apply validationResultOf_validated.
  assert (HE : erroredFieldKeysOf schema U = erroredFieldKeysOf schema stored).
  { unfold erroredFieldKeysOf. now rewrite HR. }
  assert (HU : validatedFields schema touch U = U).
  { unfold validatedFields at 1. rewrite HE. subst U. unfold validatedFields.
    apply rebuild_idempotent. intros k v. apply validatedRecord_idempotent. }
  assert (HK : Obj.keys U = Obj.keys stored).
  { subst U. unfold validatedFields. now apply keys_rebuild. }
  destruct (validationResultOf schema U) as [res|e] eqn:ER.
  - destruct (validateForm_normal schema U unregisteredErrors' touch w' res
                (fields r) ER) as (r2 & w'' & H2 & Hfields).
    { now rewrite HU. }
    exists r2, w''. rewrite Hf. split; [exact H2|].
    apply validateForm_returns_tree in H2. destruct H2 as (_ & Hf2 & Hu2 & Hv2).
    rewrite Hf2, Hu2, Hv2, Hu, Hv, HU, HE, HK. repeat split. exact Hfields.
  - exfalso. rewrite HR in ER. congruence.
Qed.

End TreeMore.

Lemma validateForm_twice_witness :
  exists r w' r2 w'',
    validateForm emailSchema (emailForm "") Obj.empty true (quiet (mounted (emailForm "")))
    = (Normal r, w') /\
    validateForm emailSchema (st_fields (pending w')) Obj.empty true w' = (Normal r2, w'') /\
    st_fields (pending w'') = st_fields (pending w') /\ valid r2 = valid r.
Proof.
  eexists. eexists.
  assert (H : validateForm emailSchema (emailForm "") Obj.empty true
                (quiet (mounted (emailForm ""))) = (Normal _, _)) by (cbv; reflexivity).
  destruct (validateForm_twice emailSchema (emailForm "") Obj.empty Obj.empty true _ _ _ H
              ltac:(repeat constructor; simpl; tauto))
    as (r2 & w'' & H2 & Hf & _ & Hv & _).
  exists r2, w''. split; [exact H|]. split; [exact H2|]. split; [exact Hf | exact Hv].
Defined.

Section TreeShape.
Local Open Scope list_scope.
Import ObjFacts ObjMore.

Lemma get_map_snd {V W : Type} (h : V -> W) (k : string) (o : Obj.t V) :
  Obj.get k (map (fun kv => (fst kv, h (snd kv))) o) = option_map h (Obj.get k o).
Proof.
  induction o as [|[k' v'] o IH]; simpl; auto.
  destruct (String.eqb k k'); auto.
Qed.

Lemma flattenAll_plain_entries (l : list (string * FormFieldType)) (acc : Obj.t jsval) :
  (forall kv, In kv l -> includes_dot (fst kv) = false) ->
  flattenAll l acc
  = Normal (fold_left (fun acc kv => Obj.set (fst kv) (orUndefined (value (snd kv))) acc)
                      l acc).
Proof.
  revert acc. induction l as [|[k v] l IH]; simpl; intros acc H; auto.
  rewrite placeValue_plain by apply (H (k, v)), or_introl, eq_refl. apply IH. auto.
Qed.

(** The [fields] that a pass returns, for a registry without array items:
    every stored field appears under its name with its current value, the
    unregistered ones too, although the validator did not see them. *)
Theorem validateForm_fields_output (schema : ZodSchema) (stored : Obj.t FormFieldType)
    (unregisteredErrors : Obj.t string) (touch : bool) (w w' : Effects)
    (r : FormCallbackArgs) (k : string) (v : FormFieldType) :
  validateForm schema stored unregisteredErrors touch w = (Normal r, w') ->
  NoDup (Obj.keys stored) ->
  (forall k', In k' (Obj.keys stored) -> includes_dot k' = false) ->
  Obj.get k stored = Some v ->
  Obj.get k (fields r) = Some (orUndefined (value v)) /\
  Obj.keys (fields r) = Obj.keys stored.
Proof.
  intros H Hnd Hplain Hk. apply validateForm_returns_tree in H. destruct H as (Ht & _).
  rewrite validatedFields_map in Ht by exact Hnd.
  unfold Obj.entries in Ht. rewrite flattenAll_validated in Ht.
  rewrite flattenAll_plain_entries in Ht.
  2:{ intros [k' v'] Hin. apply Hplain. unfold Obj.keys. now apply (in_map fst) in Hin. }
  rewrite (fold_set_fresh fst (fun kv => orUndefined (value (snd kv)))) in Ht
    by (simpl; exact Hnd).
  simpl in Ht. injection Ht as <-. split.
  - rewrite (get_map_snd (fun x => orUndefined (value x))). now rewrite Hk.
  - unfold Obj.keys. now rewrite map_map.
Qed.

End TreeShape.

Lemma validateForm_fields_output_witness :
  exists r w',
    validateForm emailSchema
      [("email", storedField (VStr "a@b.com") false false false);
       ("nick", mergeField (storedField (VStr "ada") false false false) (set_registered false))]
      Obj.empty false (quiet (mounted [])) = (Normal r, w') /\
    Obj.get "nick" (fields r) = Some (VStr "ada").
Proof.
  eexists. eexists.
  assert (H : validateForm emailSchema
                [("email", storedField (VStr "a@b.com") false false false);
                 ("nick", mergeField (storedField (VStr "ada") false false false)
                                     (set_registered false))]
                Obj.empty false (quiet (mounted [])) = (Normal _, _)) by (cbv; reflexivity).
  split; [exact H|].
  refine (proj1 (validateForm_fields_output _ _ _ _ _ _ _ "nick" _ H _ _ eq_refl)).
  - repeat constructor; simpl; intuition discriminate.
  - intros k' [<-|[<-|[]]]; reflexivity.
Defined.

(** ** Array groups in the value tree *)

Section GroupTree.
Local Open Scope list_scope.
Import ObjFacts ObjMore.

Lemma itemName_segments (name : string) (i : nat) :
  includes_dot name = false ->
  includes_dot (itemName name i) = true /\
  firstSegment (itemName name i) = name /\
  indexOrZero (secondSegment (itemName name i)) = i.
Proof.
  intros H. unfold itemName, itemKey. rewrite showInt_of_nat. split; [|split].
  - apply includes_dot_app.
  - unfold firstSegment. now rewrite split_dot_app.
  - unfold indexOrZero, secondSegment. rewrite split_dot_app by exact H.
    rewrite split_dot_plain by apply includes_dot_showNat.
    simpl. now rewrite Number_showNat.
Qed.

Lemma arraySet_end (pre : list jsval) (x : jsval) :
  arraySet pre (List.length pre) x = pre ++ [x].
Proof. induction pre as [|y pre IH]; simpl; auto. now rewrite IH. Qed.

Lemma set_set {V : Type} (k : string) (v1 v2 : V) (o : Obj.t V) :
  Obj.set k v2 (Obj.set k v1 o) = Obj.set k v2 o.
Proof.
  induction o as [|[k' v'] o IH]; simpl.
  - now rewrite String.eqb_refl.
  - destruct (String.eqb k k') eqn:E; simpl; rewrite ?String.eqb_refl, ?E; auto.
    now rewrite IH.
Qed.

Lemma placeValue_item (name : string) (pre : list jsval) (acc : Obj.t jsval)
    (v : FormFieldType) :
  includes_dot name = false -> Obj.get name acc = Some (VArr pre) ->
  placeValue acc (itemName name (List.length pre)) v
  = Normal (Obj.set name (VArr (pre ++ [orUndefined (value v)])) acc).
Proof.
  intros Hn Hg. unfold placeValue.
  destruct (itemName_segments name (List.length pre) Hn) as (-> & -> & ->).
  unfold assignItem. rewrite Hg. cbn [orUndefined truthy]. rewrite Hg.
  cbn [orUndefined]. now rewrite arraySet_end.
Qed.

Lemma placeValue_first_item (name : string) (acc : Obj.t jsval) (v : FormFieldType) :
  includes_dot name = false -> Obj.get name acc = None ->
  placeValue acc (itemName name 0) v
  = Normal (Obj.set name (VArr [orUndefined (value v)]) acc).
Proof.
  intros Hn Hg. unfold placeValue.
  destruct (itemName_segments name 0 Hn) as (-> & -> & ->).
  unfold assignItem. rewrite Hg. cbn [orUndefined truthy]. rewrite get_set_eq.
  cbn [orUndefined arraySet]. now rewrite set_set.
Qed.

Lemma flattenAll_items (name : string) (g : jsval -> FormFieldType) (items pre : list jsval)
    (acc : Obj.t jsval) :
  includes_dot name = false ->
  (forall x, orUndefined (value (g x)) = x) ->
  Obj.get name acc = Some (VArr pre) ->
  flattenAll (map (fun ix => (itemName name (fst ix), g (snd ix)))
                  (combine (seq (List.length pre) (List.length items)) items)) acc
  = Normal (Obj.set name (VArr (pre ++ items)) acc).
Proof.
  intros Hn Hg. revert pre acc. induction items as [|x items IH]; simpl; intros pre acc Ha.
  - rewrite app_nil_r. now rewrite set_same.
  - rewrite (placeValue_item name pre acc (g x) Hn Ha), Hg.
    replace (S (List.length pre)) with (List.length (pre ++ [x]))
      by (rewrite length_app; simpl; lia).
    rewrite IH by apply get_set_eq.
    now rewrite set_set, <- app_assoc.
Qed.

Lemma flattenRegistered_of_flattenAll (l : list (string * FormFieldType))
    (acc req tree : Obj.t jsval) :
  (forall kv, In kv l -> truthy (orUndefined (_registered (snd kv))) = true) ->
  flattenAll l acc = Normal tree ->
  exists req', flattenRegistered l acc req = Normal (tree, req').
Proof.
  revert acc req. induction l as [|[k v] l IH]; simpl; intros acc req Hr H.
  - injection H as <-. eauto.
  - pose proof (Hr (k, v) (or_introl eq_refl)) as Hk. simpl in Hk. rewrite Hk.
    destruct (placeValue acc k v); [|discriminate].
    apply IH; auto.
Qed.

(** An array group goes round.  Registered from the initial array of a name
    without a dot, on an empty registry and without a value override, the
    group validates to a value tree that holds, under the name, the initial
    array again. *)
Theorem array_group_round_trip (initialValues : Obj.t jsval) (initialTouched : jsval)
    (schema : ZodSchema) (name : string) (field : FormFieldType) (items : list jsval)
    (unregisteredErrors : Obj.t string) (touch : bool) (w : Effects) :
  includes_dot name = false ->
  Obj.get name initialValues = Some (VArr items) -> items <> [] ->
  value field = None ->
  exists r w',
    validateForm schema (registerField initialValues initialTouched name field true Obj.empty)
      unregisteredErrors touch w = (Normal r, w') /\
    fields r = [(name, VArr items)].
Proof.
  intros Hn Hi Hne Hv.
  set (g := arrayItemField initialTouched field).
  set (l := map (fun ix : nat * jsval => (itemName name (fst ix), g (snd ix)))
                (combine (seq 0 (List.length items)) items)).
  assert (Hnd : NoDup (Obj.keys l)).
  { subst l. unfold Obj.keys. rewrite map_map. simpl. apply itemNames_NoDup. }
  assert (Hfs : registerField initialValues initialTouched name field true Obj.empty = l).
  { unfold registerField.
    rewrite (arrayFieldsToMerge_entries initialValues initialTouched name field items Hi).
    fold g. fold l. unfold Obj.spread, Obj.entries, Obj.empty.
    rewrite (fold_set_fresh fst snd l []) by exact Hnd.
    simpl. rewrite <- (map_id l) at 2. apply map_ext. now intros []. }
  rewrite Hfs.
  assert (Hg : forall x, orUndefined (value (g x)) = x).
  { intros x. subst g. unfold arrayItemField, freshField, mergeField. simpl.
    now rewrite Hv. }
  assert (Hreg : forall kv, In kv l -> truthy (orUndefined (_registered (snd kv))) = true).
  { intros kv Hin. subst l. apply in_map_iff in Hin. destruct Hin as (ix & <- & _).
    reflexivity. }
  assert (Htree : flattenAll l Obj.empty = Normal [(name, VArr items)]).
  { subst l. destruct items as [|x items]; [congruence|].
    cbn [List.length seq combine map flattenAll fst snd].
    rewrite (placeValue_first_item name Obj.empty (g x) Hn eq_refl), Hg.
    pose proof (flattenAll_items name g items [x] (Obj.set name (VArr [x]) Obj.empty)
                  Hn Hg (get_set_eq _ _ _)) as F.
    cbn [List.length app] in F. rewrite F. now rewrite set_set. }
  destruct (flattenRegistered_of_flattenAll l Obj.empty Obj.empty _ Hreg Htree)
    as [req' Hreq].
  apply (validateForm_normal schema l unregisteredErrors touch w
           (schema req' [(name, VArr items)])).
  - unfold validationResultOf, Obj.entries. now rewrite Hreq.
  - unfold Obj.entries. rewrite validatedFields_map by exact Hnd.
    now rewrite flattenAll_validated.
Qed.

(** A scalar field and an array item of the same name break the pass.  When
    a registered field called [g] holds a truthy value that is not an object
    and the next entry is a registered item [g.i], the pass throws a
    TypeError while it builds the validator's input, so nothing is written. *)
Theorem scalar_then_item_throws (schema : ZodSchema) (g : string) (i : nat)
    (scalar item : FormFieldType) (rest : Obj.t FormFieldType)
    (unregisteredErrors : Obj.t string) (touch : bool) (w : Effects) :
  includes_dot g = false ->
  truthy (orUndefined (_registered scalar)) = true ->
  truthy (orUndefined (_registered item)) = true ->
  truthy (orUndefined (value scalar)) = true ->
  isPrimitive (orUndefined (value scalar)) = true ->
  validateForm schema ((g, scalar) :: (itemName g i, item) :: rest)
    unregisteredErrors touch w
  = (Throw (TypeError "Cannot create property on a primitive value"), w).
Proof.
  intros Hg Hs Hi Ht Hp. unfold validateForm, bind, lift. simpl.
  rewrite Hs, Hi. rewrite (placeValue_plain _ g scalar Hg).
  unfold placeValue. destruct (itemName_segments g i Hg) as (-> & -> & ->).
  unfold assignItem. simpl. rewrite String.eqb_refl. simpl. rewrite Ht. simpl.
  rewrite String.eqb_refl. simpl.
  destruct (orUndefined (value scalar)); try discriminate; simpl;
    destruct (truthy (orUndefined (required scalar))); reflexivity.
Qed.

End GroupTree.

Lemma array_group_round_trip_witness :
  exists r w',
    validateForm emailSchema
      (registerField [("tags", VArr [VStr "a"; VStr "b"])] VUndefined "tags" emptyField true [])
      Obj.empty false (quiet (mounted [])) = (Normal r, w') /\
    fields r = [("tags", VArr [VStr "a"; VStr "b"])].
Proof.
  apply (array_group_round_trip [("tags", VArr [VStr "a"; VStr "b"])] VUndefined emailSchema
           "tags" emptyField [VStr "a"; VStr "b"] Obj.empty false (quiet (mounted []))
           eq_refl eq_refl); [discriminate | reflexivity].
Defined.

Lemma scalar_then_item_throws_witness :
  validateForm emailSchema
    [("tags", storedField (VStr "a,b") false false false);
     ("tags.0", storedField (VStr "a") false false false)]
    Obj.empty false (quiet (mounted []))
  = (Throw (TypeError "Cannot create property on a primitive value"), quiet (mounted [])).
Proof.
  exact (scalar_then_item_throws emailSchema "tags" 0
           (storedField (VStr "a,b") false false false)
           (storedField (VStr "a") false false false) [] Obj.empty false
           (quiet (mounted [])) eq_refl eq_refl eq_refl eq_refl eq_refl).
Defined.

(** ** More on submission *)

Section SubmitMore.
Local Open Scope list_scope.
Import ObjFacts ObjMore.

Variable schema : ZodSchema.
Variable onSubmit : option Handler.

(** A [submitForm] call on a callback whose render saw [submitting] set does
    nothing but warn: it returns normally, the pending state and the handler
    log are as before, and the console has one more line. *)
Theorem submitForm_guarded (snapshot : FormState) (submitHandler : option Handler)
    (w : Effects) :
  st_submitting snapshot = true ->
  submitForm schema onSubmit snapshot submitHandler w
  = (Normal tt,
     mkEffects (pending w)
               (console w ++ ["Cannot submit a form while is it already submitting"])
               (handlerCalls w)).
Proof.
  intros H. unfold submitForm, bind, submitForm_start. rewrite H. reflexivity.
Qed.

(** What the first part of a call leaves in the pending registry. *)
Lemma submitForm_start_fields (snapshot : FormState) (submitHandler : option Handler)
    (w : Effects) (args : FormCallbackArgs) :
  st_submitting snapshot = false ->
  fst (validateForm schema (st_fields snapshot) (st_unregisteredErrors snapshot) true w)
  = Normal args ->
  let out := submitForm_start schema onSubmit snapshot submitHandler w in
  st_fields (pending (snd out)) = validatedFields schema true (st_fields snapshot) /\
  (chosenHandler submitHandler onSubmit = None ->
   fst out = Normal Returned /\ st_submitting (pending (snd out)) = false /\
   handlerCalls (snd out) = handlerCalls w /\ console (snd out) = console w).
Proof.
  intros Hs Hv out. subst out. unfold submitForm_start. rewrite Hs.
  unfold bind, setSubmitting.
  match goal with
  | |- context [validateForm ?s ?f ?u ?t ?w1] =>
      pose proof (validateForm_frame s f u t w1) as Hf;
      pose proof (validateForm_result_closed s f u t w1 w) as Hc;
      destruct (validateForm s f u t w1) as [c w2] eqn:EV
  end.
  simpl in Hf, Hc. rewrite Hv in Hc. subst c.
  apply validateForm_returns_tree in EV. destruct EV as (_ & Hfields & _).
  destruct Hf as (_ & Hf2 & Hf3).
  destruct submitHandler as [h|]; [|destruct onSubmit as [h|]]; simpl;
    (split; [exact Hfields|]); try discriminate.
  intros _. auto.
Qed.

(** Without any handler, neither passed nor configured, a [submitForm] call
    validates with touch, clears the flag at once and returns: no handler is
    called, nothing is logged, and the pending registry is the validated one. *)
Theorem submitForm_without_handler (snapshot : FormState) (w : Effects)
    (args : FormCallbackArgs) :
  st_submitting snapshot = false -> onSubmit = None ->
  fst (validateForm schema (st_fields snapshot) (st_unregisteredErrors snapshot) true w)
  = Normal args ->
  let out := submitForm schema onSubmit snapshot None w in
  fst out = Normal tt /\
  st_submitting (pending (snd out)) = false /\
  st_fields (pending (snd out)) = validatedFields schema true (st_fields snapshot) /\
  handlerCalls (snd out) = handlerCalls w /\ console (snd out) = console w.
Proof.
  intros Hs Ho Hv out. subst out.
  destruct (submitForm_start_fields snapshot None w args Hs Hv) as (Hf & Hn).
  destruct Hn as (H1 & H2 & H3 & H4); [simpl; exact Ho|].
  unfold submitForm, bind.
  destruct (submitForm_start schema onSubmit snapshot None w) as [c w1].
  simpl in *. subst c. simpl. auto.
Qed.

(** Submitting touches every stored field.  Whatever handler is used and
    however it settles, after a call that passed the guard every field of
    the render's registry is pending with [touched = true] and its value. *)
Theorem submitForm_touches_all (snapshot : FormState) (submitHandler : option Handler)
    (w : Effects) (args : FormCallbackArgs) (k : string) (v : FormFieldType) :
  st_submitting snapshot = false ->
  fst (validateForm schema (st_fields snapshot) (st_unregisteredErrors snapshot) true w)
  = Normal args ->
  NoDup (Obj.keys (st_fields snapshot)) -> Obj.get k (st_fields snapshot) = Some v ->
  exists v',
    Obj.get k (st_fields (pending (snd (submitForm schema onSubmit snapshot submitHandler w))))
    = Some v' /\
    touched v' = Some (VBool true) /\ value v' = value v.
Proof.
  intros Hs Hv Hnd Hk.
  destruct (submitForm_start_fields snapshot submitHandler w args Hs Hv) as (Hf & _).
  assert (Hfin : st_fields (pending (snd (submitForm schema onSubmit snapshot
                                            submitHandler w)))
                 = validatedFields schema true (st_fields snapshot)).
  { unfold submitForm, bind.
    destruct (submitForm_start schema onSubmit snapshot submitHandler w) as [c w1].
    simpl in Hf. destruct c as [[|[[]|e]]|e]; simpl; exact Hf. }
  rewrite Hfin. unfold validatedFields. rewrite get_rebuild by exact Hnd.
  rewrite Hk. simpl. eexists. split; [reflexivity|].
  destruct (validatedRecord_keeps (erroredFieldKeysOf schema (st_fields snapshot)) true k v)
    as (H1 & _ & _ & _ & _ & H6).
  split; [exact H6 | exact H1].
Qed.

End SubmitMore.

(** A pass writes the registry of its own render.  Whatever is pending when
    [validateForm] runs, the registry it leaves pending is computed from the
    [fields] the callback closed over: a name that is pending but not in that
    registry is not stored afterwards. *)
Theorem validateForm_discards_pending (schema : ZodSchema) (stored : Obj.t FormFieldType)
    (unregisteredErrors : Obj.t string) (touch : bool) (w w' : Effects)
    (r : FormCallbackArgs) (k : string) :
  validateForm schema stored unregisteredErrors touch w = (Normal r, w') ->
  Obj.get k stored = None ->
  Obj.get k (st_fields (pending w')) = None.
Proof.
  intros H Hk. apply validateForm_returns_tree in H. destruct H as (_ & -> & _).
  destruct (Obj.get k (validatedFields schema touch stored)) eqn:G; [|reflexivity].
  exfalso. apply ObjFacts.get_Some_In in G. unfold validatedFields in G.
  apply ObjFacts.rebuild_In in G. destruct G as (v & Hin & _).
  apply ObjFacts.get_None_keys in Hk. apply Hk. unfold Obj.keys.
  now apply (in_map fst) in Hin.
Qed.

Lemma submitForm_guarded_witness :
  submitForm emailSchema None (mkState (emailForm "a@b.com") Obj.empty true) (Some fulfilling)
    (quiet (mkState (emailForm "a@b.com") Obj.empty true))
  = (Normal tt,
     mkEffects (mkState (emailForm "a@b.com") Obj.empty true)
               ["Cannot submit a form while is it already submitting"] []).
Proof.
  exact (submitForm_guarded emailSchema None (mkState (emailForm "a@b.com") Obj.empty true)
           (Some fulfilling) (quiet (mkState (emailForm "a@b.com") Obj.empty true)) eq_refl).
Defined.

Lemma submitForm_fulfilment_clears_flag_witness :
  let out := submitForm emailSchema (Some fulfilling) (mounted (emailForm "a@b.com")) None
               (quiet (mounted (emailForm "a@b.com"))) in
  fst out = Normal tt /\ st_submitting (pending (snd out)) = false.
Proof.
  exact (submitForm_fulfilment_clears_flag emailSchema (Some fulfilling)
           (mounted (emailForm "a@b.com")) None fulfilling
           (quiet (mounted (emailForm "a@b.com"))) _ eq_refl eq_refl eq_refl eq_refl).
Defined.

Lemma submitForm_without_handler_witness :
  let out := submitForm emailSchema None (mounted (emailForm "")) None
               (quiet (mounted (emailForm ""))) in
  fst out = Normal tt /\ st_submitting (pending (snd out)) = false /\
  handlerCalls (snd out) = [].
Proof.
  destruct (submitForm_without_handler emailSchema None (mounted (emailForm ""))
              (quiet (mounted (emailForm ""))) _ eq_refl eq_refl eq_refl)
    as (H1 & H2 & _ & H4 & _).
  split; [exact H1 | split; [exact H2 | exact H4]].
Defined.

Lemma submitForm_touches_all_witness :
  exists v',
    Obj.get "email"
      (st_fields (pending (snd (submitForm emailSchema None (mounted (emailForm "a@b.com"))
                                  (Some rejecting)
                                  (quiet (mounted (emailForm "a@b.com"))))))) = Some v' /\
    touched v' = Some (VBool true) /\ value v' = Some (VStr "a@b.com").
Proof.
  exact (submitForm_touches_all emailSchema None (mounted (emailForm "a@b.com"))
           (Some rejecting) (quiet (mounted (emailForm "a@b.com"))) _ "email" _
           eq_refl eq_refl ltac:(repeat constructor; simpl; tauto) eq_refl).
Defined.

Lemma validateForm_discards_pending_witness :
  exists r w',
    validateForm emailSchema (emailForm "a@b.com") Obj.empty false
      (quiet (mounted (registerField [] VUndefined "name" emptyField false
                         (emailForm "a@b.com")))) = (Normal r, w') /\
    Obj.get "name" (st_fields (pending w')) = None.
Proof.
  eexists. eexists.
  assert (H : validateForm emailSchema (emailForm "a@b.com") Obj.empty false
                (quiet (mounted (registerField [] VUndefined "name" emptyField false
                                   (emailForm "a@b.com")))) = (Normal _, _))
    by (cbv; reflexivity).
  split; [exact H|].
  exact (validateForm_discards_pending _ _ _ _ _ _ _ "name" H eq_refl).
Defined.

(** ** Field: setters and mounting *)

Section FieldMore.
Local Open Scope list_scope.
Import ObjFacts ObjMore.

(** The change handler of a bound input stores the value and touches the
    field, and touches nothing else: afterwards the context value of the
    field carries the new value, and its [error] is truthy exactly when the
    recorded [error] of the field is. *)
Theorem changeValue_shows (fs : Obj.t FormFieldType) (name : string) (castedValue : jsval)
    (intent : jsval) (r : FormFieldType) :
  Obj.get name fs = Some r ->
  let b := binding (contextValue (changeValue name castedValue fs) name intent) in
  value b = Some castedValue /\ touched b = Some (VBool true) /\
  truthy (orUndefined (error b)) = truthy (orUndefined (error r)) /\
  errorMessage b = errorMessage r /\ originalValue b = originalValue r /\
  (forall other, other <> name ->
     Obj.get other (changeValue name castedValue fs) = Obj.get other fs).
Proof.
  intros H b. subst b.
  assert (G : Obj.get name (changeValue name castedValue fs)
              = Some (mergeField
                        (mergeField r (mkField None None None (Some castedValue)
                                               None None None None))
                        (mkField None (Some (VBool true)) None None None None None None))).
  { unfold changeValue, setTouched, setValue, updateField.
    now rewrite !get_set_eq, H. }
  unfold contextValue. rewrite G. clear G.
  split; [|split; [|split; [|split; [|split]]]]; try (destruct r; reflexivity).
  - destruct r as [? ? ? ? [e|] ? ? ?]; simpl; [|reflexivity].
    unfold js_and. destruct (truthy e) eqn:E; simpl; congruence.
  - intros other Hne. unfold changeValue, setTouched, setValue, updateField.
    rewrite !get_set_ne by congruence. reflexivity.
Qed.

Lemma changeValue_shows_witness :
  let b := binding (contextValue
                      (changeValue "email" (VStr "x")
                         [("email", storedField (VStr "") true false true)])
                      "email" VUndefined) in
  value b = Some (VStr "x") /\ truthy (orUndefined (error b)) = true.
Proof.
  destruct (changeValue_shows [("email", storedField (VStr "") true false true)] "email"
              (VStr "x") VUndefined _ eq_refl) as (Hv & _ & He & _).
  split; [exact Hv | exact He].
Defined.

(** [setError] on a stored field.  Clearing the error sets the message to
    undefined, whatever message is passed; raising it with a non-empty
    message stores that message; raising it with no message, or with the
    empty one, leaves the stored message as it is.  In every case only
    [error] and [errorMessage] can change. *)
Theorem setError_message (fs : Obj.t FormFieldType) (name : string) (r : FormFieldType)
    (m : option string) (msg : string) :
  Obj.get name fs = Some r -> msg <> EmptyString ->
  (exists r0, Obj.get name (setError name false m fs) = Some r0 /\
     error r0 = Some (VBool false) /\ errorMessage r0 = Some VUndefined /\
     value r0 = value r /\ touched r0 = touched r) /\
  (exists r1, Obj.get name (setError name true (Some msg) fs) = Some r1 /\
     error r1 = Some (VBool true) /\ errorMessage r1 = Some (VStr msg) /\
     value r1 = value r /\ touched r1 = touched r) /\
  (exists r2, Obj.get name (setError name true None fs) = Some r2 /\
     error r2 = Some (VBool true) /\ errorMessage r2 = errorMessage r /\
     value r2 = value r /\ touched r2 = touched r) /\
  setError name true (Some EmptyString) fs = setError name true None fs.
Proof.
  intros H Hm. unfold setError, updateField. rewrite !get_set_eq, H. simpl.
  apply String.eqb_neq in Hm. rewrite Hm.
  repeat split; eexists; (split; [reflexivity|]); destruct r; repeat split.
Qed.

Lemma setError_message_witness :
  exists r0,
    Obj.get "email" (setError "email" false (Some "ignored")
                       [("email", mergeField (storedField (VStr "") true true true)
                                    (mkField None None None None None (Some (VStr "Required"))
                                             None None))]) = Some r0 /\
    error r0 = Some (VBool false) /\ errorMessage r0 = Some VUndefined.
Proof.
  destruct (setError_message
              [("email", mergeField (storedField (VStr "") true true true)
                           (mkField None None None None None (Some (VStr "Required"))
                                    None None))]
              "email" _ (Some "ignored") "x" eq_refl ltac:(discriminate))
    as ((r0 & H & He & Hm & _) & _).
  exists r0. split; [exact H | split; [exact He | exact Hm]].
Defined.

Variable initialValues : Obj.t jsval.
Variable initialTouched : jsval.

(** The mount effect of [Field] does nothing while the form is on hold or
    when the render saw the name registered. *)
Theorem field_mount_skipped (hold : bool) (stored : Obj.t FormFieldType) (name : string)
    (fieldOptions : FormFieldType) (w : Effects) :
  hold = true \/ isFieldRegistered stored name = true ->
  fieldMountEffect initialValues initialTouched hold stored name fieldOptions w
  = (Normal false, w).
Proof.
  intros [->|H]; unfold fieldMountEffect; [reflexivity|].
  rewrite H. now rewrite orb_true_r.
Qed.

(** A field that mounts again starts over.  When the render did not see the
    name registered, the mount effect registers it, and whatever record is
    pending under the name, an unregistered one with an edited value too, is
    replaced: without a value in the options its value is the initial value
    again, and it is registered. *)
Theorem field_remount_resets (stored : Obj.t FormFieldType) (name : string)
    (fieldOptions : FormFieldType) (w : Effects) :
  isFieldRegistered stored name = false -> value fieldOptions = None ->
  let out := fieldMountEffect initialValues initialTouched false stored name fieldOptions w in
  fst out = Normal true /\
  exists r, Obj.get name (st_fields (pending (snd out))) = Some r /\
    value r = Some (js_nullish (resolveInitial initialValues name) VUndefined) /\
    _registered r = Some (VBool true) /\
    error r = Some (match error fieldOptions with Some e => e | None => VBool false end).
Proof.
  intros H Hv out. subst out. unfold fieldMountEffect. rewrite H. simpl.
  split; [reflexivity|]. rewrite registerField_scalar. rewrite get_set_eq.
  eexists. split; [reflexivity|].
  unfold freshField, mergeField. simpl. rewrite Hv. simpl.
  repeat split. now destruct (error fieldOptions).
Qed.

End FieldMore.

Lemma field_mount_skipped_witness :
  fieldMountEffect [] VUndefined false (emailForm "a@b.com") "email" emptyField
    (quiet (mounted (emailForm "a@b.com")))
  = (Normal false, quiet (mounted (emailForm "a@b.com"))).
Proof.
  apply field_mount_skipped. right. reflexivity.
Defined.

Lemma field_remount_resets_witness :
  let unmounted := unregisterField "email" (setValue "email" (VStr "edited")
                                              (emailForm "a@b.com")) in
  let out := fieldMountEffect [("email", VStr "a@b.com")] VUndefined false unmounted "email"
               emptyField (quiet (mounted unmounted)) in
  exists r, Obj.get "email" (st_fields (pending (snd out))) = Some r /\
            value r = Some (VStr "a@b.com").
Proof.
  destruct (field_remount_resets [("email", VStr "a@b.com")] VUndefined
              (unregisterField "email" (setValue "email" (VStr "edited")
                                          (emailForm "a@b.com")))
              "email" emptyField
              (quiet (mounted (unregisterField "email"
                                 (setValue "email" (VStr "edited") (emailForm "a@b.com")))))
              eq_refl eq_refl) as (_ & r & H & Hv & _).
  exists r. split; [exact H | exact Hv].
Defined.

(** ** FieldArray: adding, listing, and errors *)

Section ArrayMore.
Local Open Scope list_scope.
Import ObjFacts ObjMore.

Variable initialValues : Obj.t jsval.
Variable initialTouched : jsval.
Variable fs : Obj.t FormFieldType.
Variable name : string.
Variable n : nat.
Variable item : nat -> FormFieldType.

Hypothesis name_plain : includes_dot name = false.
Hypothesis dense : forall i, i < n -> Obj.get (itemName name i) fs = Some (item i).
Hypothesis only_group :
  forall k, In k (Obj.keys fs) -> startsWith k name = true -> includes_dot k = true ->
            exists i, i < n /\ k = itemName name i.

Lemma beyond_group_absent (i : nat) : n <= i -> Obj.get (itemName name i) fs = None.
Proof.
  intros Hi. destruct (Obj.get (itemName name i) fs) eqn:G; auto. exfalso.
  apply get_Some_In in G. apply (in_map fst) in G. simpl in G.
  destruct (itemName_selected name i name_plain) as (Hp & Hd & _).
  destruct (only_group _ G Hp Hd) as (j & Hj & E). apply itemName_inj in E. lia.
Qed.

Lemma afterAdd_appends (added : jsval) :
  afterAdd initialValues initialTouched fs name added
  = fs ++ [(itemName name n, addedField initialValues initialTouched name n added)] /\
  itemCount (afterAdd initialValues initialTouched fs name added) name = S n.
Proof.
  assert (Hc : itemCount fs name = n) by (apply (itemCount_dense fs name n item); assumption).
  assert (Ha : afterAdd initialValues initialTouched fs name added
               = fs ++ [(itemName name n, addedField initialValues initialTouched name n added)]).
  { unfold afterAdd, addHandler, setFields. simpl. rewrite Hc.
    rewrite registerField_scalar. fold (itemName name n).
    destruct (itemName_selected name n name_plain) as (_ & -> & _).
    simpl orUndefined. rewrite set_fresh by (apply beyond_group_absent; lia).
    reflexivity. }
  split; [exact Ha|]. rewrite Ha.
  apply (itemCount_dense _ name (S n)
           (fun i => if Nat.ltb i n then item i else addedField initialValues initialTouched name n added)); auto.
  - intros i Hi. rewrite <- set_fresh by (apply beyond_group_absent; lia).
    destruct (Nat.ltb i n) eqn:E.
    + apply Nat.ltb_lt in E. rewrite get_set_ne; [now apply dense|].
      intros Heq. apply itemName_inj in Heq. lia.
    + apply Nat.ltb_ge in E. assert (i = n) as -> by lia. apply get_set_eq.
  - intros k Hk Hp Hd. unfold Obj.keys in Hk. rewrite map_app in Hk.
    apply in_app_or in Hk. destruct Hk as [Hk|[<-|[]]].
    + destruct (only_group k Hk Hp Hd) as (i & Hi & ->). exists i. split; [lia|auto].
    + exists n. split; [lia | reflexivity].
Qed.

End ArrayMore.

(** [add] on a group whose name holds no dot, whose items are stored under
    the indices below [n], and when no other stored name starts with the
    group name and holds a dot: one record is appended under [name.n]; it is
    registered, marked as item, holds the added item as value and, unless
    the item is null, as [originalValue]; the group then counts [n + 1]. *)
Theorem add_appends_item (initialValues : Obj.t jsval) (initialTouched : jsval)
    (fs : Obj.t FormFieldType) (name : string) (n : nat) (item : nat -> FormFieldType)
    (added : jsval) :
  includes_dot name = false ->
  (forall i, i < n -> Obj.get (itemName name i) fs = Some (item i)) ->
  (forall k, In k (Obj.keys fs) -> startsWith k name = true -> includes_dot k = true ->
             exists i, i < n /\ k = itemName name i) ->
  exists r,
    afterAdd initialValues initialTouched fs name added
    = (fs ++ [(itemName name n, r)])%list /\
    value r = Some added /\ originalValue r = Some (js_nullish added VUndefined) /\
    _registered r = Some (VBool true) /\ _item r = Some (VBool true) /\
    error r = Some (VBool false) /\
    itemCount (afterAdd initialValues initialTouched fs name added) name = S n.
Proof.
  intros Hn Hd Ho.
  destruct (afterAdd_appends initialValues initialTouched fs name n item Hn Hd Ho added)
    as [Ha Hc].
  exists (addedField initialValues initialTouched name n added).
  split; [exact Ha|]. repeat split. exact Hc.
Qed.

(** [add] and then [remove] of the new last index give back the registry as
    it was, entry for entry. *)
Theorem add_then_remove (initialValues : Obj.t jsval) (initialTouched : jsval)
    (fs : Obj.t FormFieldType) (name : string) (n : nat) (item : nat -> FormFieldType)
    (added : jsval) :
  includes_dot name = false ->
  (forall i, i < n -> Obj.get (itemName name i) fs = Some (item i)) ->
  (forall k, In k (Obj.keys fs) -> startsWith k name = true -> includes_dot k = true ->
             exists i, i < n /\ k = itemName name i) ->
  afterRemove (afterAdd initialValues initialTouched fs name added) name (Z.of_nat n) = fs.
Proof.
  intros Hn Hd Ho.
  destruct (afterAdd_appends initialValues initialTouched fs name n item Hn Hd Ho added)
    as [Ha Hc].
  rewrite (afterRemove_unfold _ name n n Hc). rewrite Nat.sub_diag. simpl fold_left.
  rewrite Ha. unfold deleteField.
  assert (Habs : Obj.get (itemName name n) fs = None)
    by (apply (beyond_group_absent fs name n Hn Ho); lia).
  rewrite <- (ObjFacts.set_fresh _ (addedField initialValues initialTouched name n added)
                _ Habs) at 1.
  rewrite ObjFacts.get_set_eq. now apply ObjMore.remove_appended.
Qed.

Lemma threeTags_dense :
  (forall i, i < 3 -> Obj.get (itemName "tags" i) threeTags = Some (threeTagsItem i)) /\
  (forall k, In k (Obj.keys threeTags) -> startsWith k "tags" = true ->
             includes_dot k = true -> exists i, i < 3 /\ k = itemName "tags" i).
Proof.
  split.
  - intros [|[|[|i]]] H; try reflexivity. lia.
  - intros k [<-|[<-|[<-|[]]]] _ _; [exists 0|exists 1|exists 2]; split; auto; lia.
Defined.

Lemma add_appends_item_witness :
  exists r,
    afterAdd [] VUndefined threeTags "tags" (VStr "d")
    = (threeTags ++ [("tags.3", r)])%list /\
    value r = Some (VStr "d") /\ originalValue r = Some (VStr "d").
Proof.
  destruct (add_appends_item [] VUndefined threeTags "tags" 3 threeTagsItem (VStr "d")
              eq_refl (proj1 threeTags_dense) (proj2 threeTags_dense))
    as (r & Ha & Hv & Ho & _).
  exists r. split; [exact Ha | split; [exact Hv | exact Ho]].
Defined.

Lemma add_then_remove_witness :
  afterRemove (afterAdd [] VUndefined threeTags "tags" (VStr "d")) "tags" 3 = threeTags.
Proof.
  exact (add_then_remove [] VUndefined threeTags "tags" 3 threeTagsItem (VStr "d")
           eq_refl (proj1 threeTags_dense) (proj2 threeTags_dense)).
Defined.

Section ItemsMore.
Local Open Scope list_scope.
Import ObjFacts ObjMore.

Lemma length_putAt {A : Type} (l : list (option A)) (i : nat) (x : A) :
  List.length (putAt l i x) = Nat.max (List.length l) (S i).
Proof.
  revert l. induction i as [|i IH]; intros [|y l]; simpl; rewrite ?IH; simpl; lia.
Qed.

Lemma nth_putAt {A : Type} (l : list (option A)) (i j : nat) (x : A) :
  nth j (putAt l i x) None = if Nat.eqb j i then Some x else nth j l None.
Proof.
  revert l j. induction i as [|i IH]; intros [|y l] [|j]; simpl; rewrite ?IH; auto;
    try (destruct (Nat.eqb j i)); auto; now destruct j.
Qed.

Lemma In_get_NoDup {V : Type} (k : string) (v : V) (o : Obj.t V) :
  NoDup (Obj.keys o) -> In (k, v) o -> Obj.get k o = Some v.
Proof.
  induction o as [|[k' v'] o IH]; simpl; intros Hnd Hin; [contradiction|].
  inversion Hnd as [|? ? Hn Hnd']; subst.
  destruct Hin as [[= -> ->]|Hin].
  - now rewrite String.eqb_refl.
  - destruct (String.eqb k k') eqn:E; auto.
    apply String.eqb_eq in E. subst k'. exfalso. apply Hn.
    unfold Obj.keys. now apply (in_map fst) in Hin.
Qed.

Lemma itemName_number (name : string) (i : nat) :
  includes_dot name = false -> Number (secondSegment (itemName name i)) = Some i.
Proof.
  intros H. unfold itemName, itemKey, secondSegment. rewrite showInt_of_nat.
  rewrite split_dot_app by exact H.
  rewrite split_dot_plain by apply includes_dot_showNat.
  simpl. apply Number_showNat.
Qed.

Variable name : string.
Variable n : nat.
Variable item : nat -> FormFieldType.
Hypothesis name_plain : includes_dot name = false.

Lemma items_fold (l : Obj.t FormFieldType) (val : list (option FormFieldType)) :
  (forall k v, In (k, v) l -> startsWith k name = true -> includes_dot k = true ->
               exists i, i < n /\ k = itemName name i /\ v = item i) ->
  itemsSoFar n item val ->
  let res := fold_left
               (fun _val kv =>
                  if startsWith (fst kv) name && includes_dot (fst kv)
                  then match Number (secondSegment (fst kv)) with
                       | Some i => putAt _val i (snd kv)
                       | None => _val
                       end
                  else _val) l val in
  itemsSoFar n item res /\
  forall j, (nth j val None = Some (item j) \/ (j < n /\ In (itemName name j, item j) l)) ->
            nth j res None = Some (item j).
Proof.
  revert val. induction l as [|[k v] l IH]; simpl; intros val Hsel Hinv.
  - split; [exact Hinv|]. intros j [H|[_ []]]. exact H.
  - destruct (startsWith k name && includes_dot k) eqn:E.
    + apply andb_true_iff in E. destruct E as [Ep Ed].
      destruct (Hsel k v (or_introl eq_refl) Ep Ed) as (i & Hi & -> & ->).
      rewrite (itemName_number name i name_plain).
      assert (Hinv' : itemsSoFar n item (putAt val i (item i))).
      { destruct Hinv as [Hlen Hnth]. split.
        - rewrite length_putAt. lia.
        - intros j. rewrite nth_putAt. destruct (Nat.eqb j i) eqn:Ej.
          + apply Nat.eqb_eq in Ej. subst. now right.
          + apply Hnth. }
      destruct (IH (putAt val i (item i)) (fun k' v' H => Hsel k' v' (or_intror H)) Hinv')
        as [Hres Hcov].
      split; [exact Hres|]. intros j Hj. apply Hcov.
      rewrite nth_putAt. destruct (Nat.eqb j i) eqn:Ej.
      * apply Nat.eqb_eq in Ej. subst. now left.
      * destruct Hj as [Hj|[Hjn [Hj|Hj]]]; auto.
        injection Hj as Hk _. apply itemName_inj in Hk. subst.
        now rewrite Nat.eqb_refl in Ej.
    + destruct (IH val (fun k' v' H => Hsel k' v' (or_intror H)) Hinv) as [Hres Hcov].
      split; [exact Hres|]. intros j Hj. apply Hcov.
      destruct Hj as [Hj|[Hjn [Hj|Hj]]]; auto.
      injection Hj as Hk _. subst k.
      destruct (itemName_selected name j name_plain) as (Hp & Hd & _).
      rewrite Hp, Hd in E. discriminate.
Qed.

End ItemsMore.

(** The [items] of an array group are its records in index order, whatever
    the order in which they were stored: for a group whose name holds no
    dot, with items under the indices below [n] and no other stored name
    mistaken for one of them, the array has length [n] and no hole. *)
Theorem items_in_index_order (fs : Obj.t FormFieldType) (name : string) (n : nat)
    (item : nat -> FormFieldType) :
  includes_dot name = false ->
  (forall i, i < n -> Obj.get (itemName name i) fs = Some (item i)) ->
  (forall k, In k (Obj.keys fs) -> startsWith k name = true -> includes_dot k = true ->
             exists i, i < n /\ k = itemName name i) ->
  NoDup (Obj.keys fs) ->
  computedArrayValue fs name = map (fun i => Some (item i)) (seq 0 n).
Proof.
  intros Hn Hd Ho Hnd. unfold computedArrayValue, Obj.entries.
  destruct (items_fold name n item Hn fs []) as [[Hlen Hnth] Hcov].
  - intros k v Hin Hp Hdot.
    destruct (Ho k) as (i & Hi & ->); auto.
    { unfold Obj.keys. now apply (in_map fst) in Hin. }
    exists i. split; [exact Hi|]. split; [reflexivity|].
    apply In_get_NoDup in Hin; [|exact Hnd]. rewrite Hd in Hin by exact Hi. congruence.
  - split; [simpl; lia|]. intros j. left. now destruct j.
  - set (res := fold_left _ fs []) in *.
    assert (Hall : forall j, j < n -> nth j res None = Some (item j)).
    { intros j Hj. apply Hcov. right. split; [exact Hj|].
      apply ObjFacts.get_Some_In. now apply Hd. }
    assert (Hlen' : List.length res = n).
    { destruct n as [|m]; [lia|].
      destruct (Nat.lt_ge_cases m (List.length res)) as [H|H]; [lia|].
      specialize (Hall m ltac:(lia)). rewrite nth_overflow in Hall by exact H.
      discriminate. }
    apply (nth_ext _ _ None ((fun i => Some (item i)) 0)).
    + now rewrite length_map, length_seq.
    + intros j Hj. rewrite Hlen' in Hj. rewrite Hall by exact Hj.
      pose proof (map_nth (fun i => Some (item i)) (seq 0 n) 0 j) as M.
      cbv beta in M. rewrite M. now rewrite seq_nth.
Qed.

Lemma items_in_index_order_witness :
  computedArrayValue
    [("tags.2", threeTagsItem 2); ("tags.0", threeTagsItem 0); ("tags.1", threeTagsItem 1)]
    "tags"
  = [Some (threeTagsItem 0); Some (threeTagsItem 1); Some (threeTagsItem 2)].
Proof.
  apply (items_in_index_order
           [("tags.2", threeTagsItem 2); ("tags.0", threeTagsItem 0);
            ("tags.1", threeTagsItem 1)] "tags" 3 threeTagsItem eq_refl).
  - intros [|[|[|i]]] H; try reflexivity. lia.
  - intros k [<-|[<-|[<-|[]]]] _ _; [exists 2|exists 0|exists 1]; split; auto; lia.
  - repeat constructor; simpl; intuition discriminate.
Defined.

Section ListErrorsMore.
Local Open Scope list_scope.

Lemma listErrors_fold (name : string) (l : Obj.t jsval) (acc : list string) :
  NoDup acc ->
  NoDup (fold_left (listErrorStep name) l acc) /\
  forall m, In m (fold_left (listErrorStep name) l acc) <->
            In m acc \/
            (m <> EmptyString /\ exists k, In (k, VStr m) l /\ startsWith k name = true).
Proof.
  revert acc. induction l as [|[k v] l IH]; simpl; intros acc Hnd.
  - split; [exact Hnd|]. intros m. split; [tauto|]. intros [H|(_ & k & [] & _)]. exact H.
  - unfold listErrorStep at 2 4. simpl.
    destruct (startsWith k name) eqn:Ep.
    2:{ destruct (IH acc Hnd) as [H1 H2]. split; [exact H1|]. intros m. rewrite H2.
        split; [intros [H|(Hm & k' & Hin & Hp)]; eauto 7|].
        intros [H|(Hm & k' & [[= -> _]|Hin] & Hp)]; eauto 7. congruence. }
    assert (Hskip : forall acc', acc' = acc ->
              (forall m, v = VStr m -> m = EmptyString \/ In m acc) ->
              NoDup (fold_left (listErrorStep name) l acc') /\
              forall m, In m (fold_left (listErrorStep name) l acc') <->
                In m acc \/
                (m <> EmptyString /\
                 exists k0, ((k, v) = (k0, VStr m) \/ In (k0, VStr m) l) /\
                            startsWith k0 name = true)).
    { intros acc' -> Hv. destruct (IH acc Hnd) as [H1 H2]. split; [exact H1|].
      intros m. rewrite H2. split; [intros [H|(Hm & k' & Hin & Hp)]; eauto 7|].
      intros [H|(Hm & k' & [[= -> ->]|Hin] & Hp)]; eauto 7.
      destruct (Hv m eq_refl); [contradiction | now left]. }
    destruct v as [| | | |m0| |]; try (apply Hskip; [reflexivity | discriminate]).
    destruct (String.eqb m0 EmptyString) eqn:Ee; simpl.
    { apply Hskip; [reflexivity|]. intros m [= <-]. left. now apply String.eqb_eq. }
    destruct (includes acc m0) eqn:Ei; simpl.
    { apply Hskip; [reflexivity|]. intros m [= <-]. right. now apply includes_In. }
    assert (Hfresh : ~ In m0 acc).
    { intros H. apply includes_In in H. congruence. }
    destruct (IH (acc ++ [m0])) as [H1 H2].
    { apply NoDup_app; auto.
      - constructor; [intros []|constructor].
      - intros x Hx [<-|[]]. contradiction. }
    split; [exact H1|]. intros m. rewrite H2, in_app_iff. simpl.
    apply String.eqb_neq in Ee. split.
    + intros [[H|[<-|[]]]|(Hm & k' & Hin & Hp)]; eauto 8.
    + intros [H|(Hm & k' & [[= -> ->]|Hin] & Hp)]; eauto 8.
Qed.

(** [listErrors] of a group: undefined when no key of [errors] that starts
    with the group name carries a non-empty message, and otherwise the list
    of those messages, each once and never empty. *)
Theorem listErrors_distinct (errors : option (Obj.t jsval)) (name : string) :
  let e := match errors with Some e => e | None => Obj.empty end in
  match listErrors errors name with
  | None => forall k m, In (k, VStr m) e -> startsWith k name = true -> m = EmptyString
  | Some l =>
      l <> [] /\ NoDup l /\
      forall m, In m l <->
                (m <> EmptyString /\ exists k, In (k, VStr m) e /\ startsWith k name = true)
  end.
Proof.
  intros e. unfold listErrors, Obj.entries. fold e.
  destruct (listErrors_fold name e [] (NoDup_nil _)) as [Hnd Hin].
  destruct (fold_left (listErrorStep name) e []) as [|x l] eqn:E.
  - intros k m Hk Hp. destruct (String.eqb m EmptyString) eqn:Em.
    + now apply String.eqb_eq.
    + apply String.eqb_neq in Em. exfalso.
      apply (proj2 (Hin m)). right. eauto.
  - split; [discriminate|]. split; [exact Hnd|].
    intros m. rewrite Hin. simpl. tauto.
Qed.

End ListErrorsMore.
